(** * EngeeDocumentationParser: a shallow embedding of [parser.py]

    The development follows the source file top to bottom: Python strings and
    the string methods the parser calls, the two regular expressions, the text
    sanitizer [pretiffy_data], the metadata extractor, the persistence
    functions, the page validator and the crawl orchestrator [main]. *)

From Stdlib Require Import String Ascii List NArith ZArith Bool Lia.
Import ListNotations.

Set Implicit Arguments.

(** ** Python strings

    A Python [str] is a sequence of Unicode code points. *)

Module Str.

Definition str : Type := list N.

(** Literals are written as Rocq strings (UTF-8 bytes) and decoded. *)
Fixpoint bytes_of (s : string) : list N :=
  match s with
  | EmptyString => []
  | String a s' => N_of_ascii a :: bytes_of s'
  end.

Fixpoint utf8_go (need : nat) (acc : N) (bs : list N) : str :=
  match bs with
  | [] => []
  | b :: bs' =>
      match need with
      | O =>
          if (b <? 128)%N then b :: utf8_go 0 0%N bs'
          else if (b <? 224)%N then utf8_go 1 (b - 192)%N bs'
          else if (b <? 240)%N then utf8_go 2 (b - 224)%N bs'
          else utf8_go 3 (b - 240)%N bs'
      | S O => (acc * 64 + (b - 128))%N :: utf8_go 0 0%N bs'
      | S n => utf8_go n (acc * 64 + (b - 128))%N bs'
      end
  end.

Definition u (s : string) : str := utf8_go 0 0%N (bytes_of s).

Fixpoint eqb (a b : str) : bool :=
  match a, b with
  | [], [] => true
  | x :: a', y :: b' => (x =? y)%N && eqb a' b'
  | _, _ => false
  end.

(** [t.startswith(w)] *)
Fixpoint startswith (w t : str) : bool :=
  match w, t with
  | [], _ => true
  | _ :: _, [] => false
  | x :: w', y :: t' => (x =? y)%N && startswith w' t'
  end.

(** [w in t] *)
Fixpoint contains (w t : str) : bool :=
  startswith w t ||
  match t with
  | [] => false
  | _ :: t' => contains w t'
  end.

(** [t.rfind(w)]: the highest index at which [w] starts, or [-1]. *)
Fixpoint rfind (w t : str) : Z :=
  let here := if startswith w t then 0%Z else (-1)%Z in
  match t with
  | [] => here
  | _ :: t' =>
      let r := rfind w t' in
      if (r =? -1)%Z then here else (r + 1)%Z
  end.

(** [t[:i]], with Python's reading of a negative bound. *)
Definition slice_to (t : str) (i : Z) : str :=
  if (i <? 0)%Z
  then firstn (Z.to_nat (Z.max 0 (Z.of_nat (length t) + i))) t
  else firstn (Z.to_nat i) t.

(** [t.replace(old, new)]: left to right, occurrences do not overlap.  The
    counter [skip] is the number of characters of a replaced occurrence that
    are still to be passed over. *)
Fixpoint replace_go (old new : str) (skip : nat) (t : str) : str :=
  match t with
  | [] => []
  | c :: t' =>
      match skip with
      | S k => replace_go old new k t'
      | O =>
          if startswith old t
          then new ++ replace_go old new (length old - 1) t'
          else c :: replace_go old new 0 t'
      end
  end.

Definition replace (old new t : str) : str :=
  match old with
  | [] => new ++ flat_map (fun c => c :: new) t
  | _ :: _ => replace_go old new 0 t
  end.

(** [t.split(sep)] for a non-empty separator ([None] stands for the
    [ValueError] Python raises on an empty one).  [cur] is the current piece,
    reversed. *)
Fixpoint split_go (sep : str) (skip : nat) (cur : str) (t : str) : list str :=
  match t with
  | [] => [rev cur]
  | c :: t' =>
      match skip with
      | S k => split_go sep k cur t'
      | O =>
          if startswith sep t
          then rev cur :: split_go sep (length sep - 1) [] t'
          else split_go sep 0 (c :: cur) t'
      end
  end.

Definition split (sep t : str) : option (list str) :=
  match sep with
  | [] => None
  | _ :: _ => Some (split_go sep 0 [] t)
  end.

(** The characters [str.strip], [str.rstrip] and the regular expression
    class [\s] treat as white space ([Py_UNICODE_ISSPACE]). *)
Definition isspace (c : N) : bool :=
  ((9 <=? c) && (c <=? 13) || (28 <=? c) && (c <=? 32) ||
   (c =? 133) || (c =? 160) || (c =? 5760) ||
   (8192 <=? c) && (c <=? 8202) ||
   (c =? 8232) || (c =? 8233) || (c =? 8239) || (c =? 8287) ||
   (c =? 12288))%N.

Fixpoint lstrip (t : str) : str :=
  match t with
  | [] => []
  | c :: t' => if isspace c then lstrip t' else t
  end.

Definition rstrip (t : str) : str := rev (lstrip (rev t)).

Definition strip (t : str) : str := rstrip (lstrip t).

(** The part of [str.lower]'s table for the alphabets of the crawled pages:
    Basic Latin, Latin-1 and the Cyrillic block U+0400..U+042F.  Every other
    code point is left as it is.  The functions below take the case folding
    as a parameter; this table instantiates it on concrete texts. *)
Definition lower_cp (c : N) : N :=
  if ((65 <=? c) && (c <=? 90))%N then (c + 32)%N
  else if ((192 <=? c) && (c <=? 222) && negb (c =? 215))%N then (c + 32)%N
  else if ((1024 <=? c) && (c <=? 1039))%N then (c + 80)%N
  else if ((1040 <=? c) && (c <=? 1071))%N then (c + 32)%N
  else c.

Definition lower (t : str) : str := map lower_cp t.

End Str.

Import Str.

(** ** The regular-expression fragment of the two patterns

    Both patterns are sequences of single-character items, greedy
    repetitions of a character class and one capture group.  The matcher is
    the backtracking one of [re]: a repetition first takes as many
    characters as it can and gives them back one at a time while the rest of
    the pattern fails. *)

Module Re.

Inductive cls : Type :=
| Lit (c : N)          (* the character itself *)
| NotLit (c : N)       (* [^c] *)
| Space.               (* \s *)

Definition cls_ok (k : cls) (c : N) : bool :=
  match k with
  | Lit d => (c =? d)%N
  | NotLit d => negb (c =? d)%N
  | Space => isspace c
  end.

Inductive item : Type :=
| One (k : cls)        (* exactly one character of the class *)
| Many (k : cls)       (* k*, greedy *)
| Mark.                (* a parenthesis of the capture group *)

Definition regex : Type := list item.

Definition lits (s : str) : regex := map (fun c => One (Lit c)) s.

(** k+ *)
Definition plus (k : cls) : regex := [One k; Many k].

(** [match_here r t]: match [r] at the very start of [t].  The result is the
    text left after the match and, for each [Mark], the text that was left
    when the matcher passed it. *)
Fixpoint match_here (r : regex) (t : str) : option (list str * str) :=
  match r with
  | [] => Some ([], t)
  | One k :: r' =>
      match t with
      | c :: t' => if cls_ok k c then match_here r' t' else None
      | [] => None
      end
  | Many k :: r' =>
      (fix greedy (t : str) : option (list str * str) :=
         match t with
         | c :: t' =>
             if cls_ok k c
             then match greedy t' with
                  | Some m => Some m
                  | None => match_here r' t
                  end
             else match_here r' t
         | [] => match_here r' []
         end) t
  | Mark :: r' =>
      match match_here r' t with
      | Some (ms, rest) => Some (t :: ms, rest)
      | None => None
      end
  end.

(** [re.search]: the leftmost position at which the pattern matches. *)
Fixpoint search (r : regex) (t : str) : option (list str * str) :=
  match match_here r t with
  | Some m => Some m
  | None =>
      match t with
      | [] => None
      | _ :: t' => search r t'
      end
  end.

(** [m.group(1)] of a pattern with one group: the text between the two
    marks. *)
Definition group1 (m : list str * str) : option str :=
  match fst m with
  | [opened; closed] => Some (firstn (length opened - length closed) opened)
  | _ => None
  end.

(** [re.sub(r, "", t)]: matches are found left to right and do not overlap;
    [skip] counts the characters of the current match still to be dropped.
    A match of length zero removes nothing. *)
Fixpoint sub_go (r : regex) (skip : nat) (t : str) : str :=
  match t with
  | [] => []
  | c :: t' =>
      match skip with
      | S k => sub_go r k t'
      | O =>
          match match_here r t with
          | Some (_, rest) =>
              match length t - length rest with
              | O => c :: sub_go r 0 t'
              | S k => sub_go r k t'
              end
          | None => c :: sub_go r 0 t'
          end
      end
  end.

Definition sub_empty (r : regex) (t : str) : str := sub_go r 0 t.

End Re.

(** ** Errors and the state the program acts on *)

Inductive exn : Type :=
| AttributeError       (* an attribute of [None] was asked for *)
| IndexError           (* no such group *)
| ValueError
| OSError.

Inductive result (A : Type) : Type :=
| Ok (a : A)
| Raise (e : exn).

Arguments Ok {A} a.
Arguments Raise {A} e.

(** The metadata dictionary, with its two keys. *)
Record Metadata : Type := mkMetadata {
  block_name : str;
  block_path : str
}.

(** What is written to a file: [json.dumps] of the metadata, or text. *)
Inductive content : Type :=
| JsonDump (m : Metadata)
| Text (s : str).

Inductive output : Type :=
| LinksParsingStarted
| CorrectlyDownloaded (n : nat)
| AllDocsCount (n : nat).

(** The state outside the object: the files written (the latest first), the
    lines printed (the latest first) and the URLs requested (the latest
    first). *)
Record Sys : Type := mkSys {
  files : list (str * content);
  console : list output;
  requests : list str
}.

Definition write_file (p : str) (c : content) (s : Sys) : Sys :=
  mkSys ((p, c) :: files s) (console s) (requests s).

Definition print (o : output) (s : Sys) : Sys :=
  mkSys (files s) (o :: console s) (requests s).

Definition request (url : str) (s : Sys) : Sys :=
  mkSys (files s) (console s) (url :: requests s).

(** What a documentation page is to the program: the text of its article
    element ([article.text]) and the Markdown [convert_with_visitor] makes
    of it. *)
Record Article : Type := mkArticle {
  art_text : str;
  art_markdown : str
}.

Record PageResponse : Type := mkPage {
  pg_status : Z;
  pg_article : option Article      (* [soup.find("article", ...)] *)
}.

(** The index page: its status and, for each article of class [doc ru-en],
    the [href]s of its anchors of class [xref page].  The anchors are taken
    to carry an [href] (the type [list[str]] of [__raw_links]). *)
Record IndexResponse : Type := mkIndex {
  ix_status : Z;
  ix_articles : list (list str)
}.

(** The world the crawl runs in: the server's answers and which paths can be
    opened for writing.  Every request is answered: connections that fail
    are outside this model. *)
Record World : Type := mkWorld {
  index_page : IndexResponse;
  page : str -> PageResponse;
  writable : str -> bool
}.

(** The object's fields. *)
Record Downloader : Type := mkDownloader {
  base_url : str;
  raw_links : list str;
  blocked_libs : list str;
  doc_dir : str
}.

(** A computation that acts on [Sys] and may raise. *)
Definition M (A : Type) : Type := Sys -> result A * Sys.

Definition ret {A} (a : A) : M A := fun s => (Ok a, s).

Definition raise {A} (e : exn) : M A := fun s => (Raise e, s).

Definition bind {A B} (m : M A) (f : A -> M B) : M B :=
  fun s =>
    match m s with
    | (Ok a, s') => f a s'
    | (Raise e, s') => (Raise e, s')
    end.

Definition act (f : Sys -> Sys) : M unit := fun s => (Ok tt, f s).

(** [try: m except: h] *)
Definition try_except {A} (m : M A) (h : M A) : M A :=
  fun s =>
    match m s with
    | (Ok a, s') => (Ok a, s')
    | (Raise _, s') => h s'
    end.

Notation "x <- m ;; k" := (bind m (fun x => k))
  (at level 61, m at next level, right associativity).
Notation "m ;;; k" := (bind m (fun _ => k))
  (at level 61, right associativity).

Definition lift {A} (r : result A) : M A := fun s => (r, s).

(** [open(p, "w", ...)] followed by a write, for a path the file system
    either accepts or refuses: [OSError] where the path cannot be opened for
    writing.  (The directory [__init__] creates when it is missing is part
    of what [writable] answers.)  Paths [open] refuses before it asks the
    file system (a path holding U+0000 raises [ValueError]) and writes that
    fail after the file was opened are outside this model. *)
Definition open_write (w : World) (p : str) (c : content) : M unit :=
  fun s => if writable w p then (Ok tt, write_file p c s) else (Raise OSError, s).

(** ** class EngeeBlockDocumentationDownloader *)

Section Program.

(** [str.lower], see [Str.lower] for the table used on concrete texts. *)
Variable lower : str -> str.

(** [__init__] *)
Definition init : Downloader :=
  Eval vm_compute in
  {| base_url := u "https://engee.com/helpcenter/stable/ru-en/";
     raw_links := [];
     blocked_libs := [];
     doc_dir := u "documentation/" |}.

Definition INTERFACES : str := Eval vm_compute in u "/interfaces/".
Definition RITM : str := Eval vm_compute in u "/ritm/".

Definition set_blocked_libs (self : Downloader) : Downloader :=
  {| base_url := base_url self;
     raw_links := raw_links self;
     blocked_libs := [INTERFACES; RITM];
     doc_dir := doc_dir self |}.

(** *** pretiffy_data *)

Definition SVG_PREFIX : str :=
  Eval vm_compute in u "[SVG Image](data:image/svg+xml;base64,".
Definition RPAREN : N := 41%N.

(** [\[SVG Image\]\(data:image/svg\+xml;base64,[^)]+\)] *)
Definition removing_pattern : Re.regex :=
  Re.lits SVG_PREFIX ++ Re.plus (Re.NotLit RPAREN) ++ Re.lits [RPAREN].

Definition TARGET_WORDS : list str :=
  Eval vm_compute in
  [u "#дополнительные-возможности"; u "дополнительные возможности";
   u "#примеры"; u "примеры";
   u "#смотрите-также"; u "смотрите также"].

(** The loop [for word in TARGET_WORDS] with the [return clean_text] that
    follows it. *)
Fixpoint scan_words (words : list str) (clean_text : str) : str :=
  match words with
  | [] => clean_text
  | word :: words' =>
      if contains word (lower clean_text)
      then
        let cursor := rfind word clean_text in
        if negb (cursor =? -1)%Z
        then slice_to clean_text cursor
        else scan_words words' clean_text
      else scan_words words' clean_text
  end.

Definition pretiffy_data (markdown_text : str) : str :=
  let clean_text := Re.sub_empty removing_pattern markdown_text in
  scan_words TARGET_WORDS clean_text.

(** *** __get_block_metadata *)

Definition NEWLINE : str := [10%N].
Definition PATH_MARKER : str := Eval vm_compute in u "Путь в библиотеке:<br>".
Definition SLASH : N := 47%N.
Definition BAR : N := 124%N.

(** [Путь в библиотеке:<br>\s*(/[^|]+)] *)
Definition path_pattern : Re.regex :=
  Re.lits PATH_MARKER ++ [Re.Many Re.Space] ++
  [Re.Mark] ++ [Re.One (Re.Lit SLASH)] ++ Re.plus (Re.NotLit BAR) ++ [Re.Mark].

(** [markdown_text.split("\n")[0]] *)
Definition first_line (markdown_text : str) : str :=
  match split NEWLINE markdown_text with
  | Some (line :: _) => line
  | _ => []
  end.

Definition get_block_name (markdown_text : str) : str :=
  strip (replace (u "/") (u "-") (replace (u "#") (u "") (first_line markdown_text))).

(** [re.search(path_pattern, markdown_text).group(1)]: [re.search] gives
    [None] when nothing matches, and [None] has no [group]. *)
Definition get_block_path (markdown_text : str) : result str :=
  match Re.search path_pattern markdown_text with
  | Some m =>
      match Re.group1 m with
      | Some g => Ok g
      | None => Raise IndexError
      end
  | None => Raise AttributeError
  end.

Definition get_block_metadata (markdown_text : str) : result Metadata :=
  let name := get_block_name markdown_text in
  match get_block_path markdown_text with
  | Ok path => Ok {| block_name := name; block_path := path |}
  | Raise e => Raise e
  end.

(** *** __save_block_metadata and __save_md *)

Definition dotted (metadata : Metadata) : str :=
  replace (u "/") (u ".") (block_path metadata).

Definition json_file (self : Downloader) (metadata : Metadata) : str :=
  doc_dir self ++ rstrip (dotted metadata) ++ u ".json".

Definition md_file (self : Downloader) (metadata : Metadata) : str :=
  doc_dir self ++ rstrip (dotted metadata) ++ u ".md".

Definition save_block_metadata (self : Downloader) (w : World)
    (metadata : Metadata) : M unit :=
  match dotted metadata with
  | _ :: _ => open_write w (json_file self metadata) (JsonDump metadata)
  | [] => raise ValueError
  end.

Definition save_md (self : Downloader) (w : World) (body : Article) : M bool :=
  let markdown_text := art_markdown body in
  let markdown := pretiffy_data markdown_text in
  metadata <- lift (get_block_metadata markdown) ;;
  save_block_metadata self w metadata ;;;
  try_except
    (open_write w (md_file self metadata) (Text markdown) ;;; ret true)
    (ret false).

(** *** __validate_page *)

Definition DOC_MARKER : str := Eval vm_compute in u "путь в библиотеке".

Definition validate_page (self : Downloader) (body : Article) : bool :=
  let body := lower (art_text body) in
  if contains DOC_MARKER body
  then
    if existsb (fun blocked_type => contains blocked_type body) (blocked_libs self)
    then false
    else true
  else false.

(** *** parse_links

    The object's [__raw_links] is extended in place: the new object is
    returned with the boolean. *)
Definition INDEX_NAME : str := Eval vm_compute in u "blocks-library-engee.html".

Definition parse_links (self : Downloader) (w : World) : M (bool * Downloader) :=
  act (request (base_url self ++ INDEX_NAME)) ;;;
  let response := index_page w in
  if (ix_status response =? 200)%Z
  then
    match ix_articles response with
    | article :: _ =>
        ret (true,
             {| base_url := base_url self;
                raw_links := raw_links self ++ article;
                blocked_libs := blocked_libs self;
                doc_dir := doc_dir self |})
    | [] => ret (false, self)
    end
  else ret (false, self).

(** *** catch_and_convert

    [__validate_page] reads [body.text]: where the page has no article
    element, [body] is [None] and the read raises. *)
Definition catch_and_convert (self : Downloader) (w : World) (link : str) : M bool :=
  let url := base_url self ++ link in
  act (request url) ;;;
  let response := page w url in
  if (pg_status response =? 200)%Z
  then
    match pg_article response with
    | None => raise AttributeError
    | Some article =>
        if validate_page self article
        then
          saved <- save_md self w article ;;
          if saved then ret true else ret false
        else ret false
    end
  else ret false.

(** *** main

    [asyncio.gather] without [return_exceptions]: the list of the
    tasks' results, in the order of the tasks, or an exception a task
    raises.  A task runs without suspension from the arrival of its page to
    its result, so the tasks' effects on the files do not interleave.  The
    pages arrive in an order the program does not decide; the model takes
    the order of dispatch.  That is exact for the result, the lines printed
    and the requests of a run in which no task raises, and for a run with
    one task; where a task raises, what holds of every order is the
    exception leaving [main] and the lines printed, not which files the
    other tasks had written by then. *)
Fixpoint gather (tasks : list (M bool)) : M (list bool) :=
  match tasks with
  | [] => ret []
  | task :: tasks' =>
      r <- task ;;
      rs <- gather tasks' ;;
      ret (r :: rs)
  end.

Definition count_true (results : list bool) : nat :=
  List.length (filter (fun r => r) results).

Definition main (self : Downloader) (w : World) : M unit :=
  parsed <- parse_links self w ;;
  let self := snd parsed in
  act (print LinksParsingStarted) ;;;
  let tasks := map (catch_and_convert self w) (raw_links self) in
  results <- gather tasks ;;
  act (print (CorrectlyDownloaded (count_true results))) ;;;
  act (print (AllDocsCount (List.length results))).

(** [if __name__ == "__main__"]: a fresh object runs [main]. *)
Definition entry_point (w : World) : M unit := main init w.

End Program.

Definition empty_sys : Sys := mkSys [] [] [].

(** * The vocabulary of the properties *)

(** [w] occurs in [t]. *)
Definition occurs (w t : str) : Prop :=
  exists pre post, t = pre ++ w ++ post.

(** [r] is [c] cut at the last occurrence of [w]. *)
Definition cut_at_last (w c r : str) : Prop :=
  (exists rest, c = r ++ w ++ rest) /\
  (forall pre post, c = pre ++ w ++ post -> length pre <= length r).

Section TruncationSpec.

Variable lower : str -> str.

(** A phrase the loop acts on: found in the case-folded text and found, as
    it is spelled in the list, in the text itself. *)
Definition usable (w c : str) : Prop := occurs w (lower c) /\ occurs w c.

(** What the loop computes: the text cut at the last occurrence of the first
    usable phrase, or the text itself when no phrase is usable. *)
Inductive truncated : list str -> str -> str -> Prop :=
| truncated_none c : truncated [] c c
| truncated_cut w ws c r :
    usable w c -> cut_at_last w c r -> truncated (w :: ws) c r
| truncated_skip w ws c r :
    ~ usable w c -> truncated ws c r -> truncated (w :: ws) c r.

(** The pass as the specification words it: the first phrase found in the
    case-folded text decides, and the text is cut at the last occurrence of
    that exact phrase. *)
Inductive truncated_as_specified : list str -> str -> str -> Prop :=
| specified_none c : truncated_as_specified [] c c
| specified_cut w ws c r :
    occurs w (lower c) -> cut_at_last w c r ->
    truncated_as_specified (w :: ws) c r
| specified_skip w ws c r :
    ~ occurs w (lower c) -> truncated_as_specified ws c r ->
    truncated_as_specified (w :: ws) c r.

End TruncationSpec.

(** An image block: the prefix, a payload, the closing parenthesis. *)
Definition svg_block (payload : str) : str := SVG_PREFIX ++ payload ++ [RPAREN].

Definition has_svg_block (t : str) : Prop :=
  exists pre payload post,
    payload <> [] /\ ~ In RPAREN payload /\ t = pre ++ svg_block payload ++ post.

Definition HASH : N := 35%N.
Definition DASH : N := 45%N.

(** The text before the first line break. *)
Fixpoint before_break (t : str) : str :=
  match t with
  | [] => []
  | c :: t' => if (c =? 10)%N then [] else c :: before_break t'
  end.

(** What becomes of one character of the heading line. *)
Definition name_char (c : N) : str :=
  if (c =? HASH)%N then [] else if (c =? SLASH)%N then [DASH] else [c].

(** The name as the specification words it: '#' and '/' are both taken
    out. *)
Definition name_as_specified (markdown_text : str) : str :=
  strip (filter (fun c => negb (c =? HASH)%N && negb (c =? SLASH)%N)
                (before_break markdown_text)).

(** The links [parse_links] adds to the object: the anchors of the first
    article of an index page that answers 200. *)
Definition collected_links (w : World) : list str :=
  if (ix_status (index_page w) =? 200)%Z
  then match ix_articles (index_page w) with
       | article :: _ => article
       | [] => []
       end
  else [].

(** The URL [catch_and_convert] asks for. *)
Definition page_url (self : Downloader) (link : str) : str :=
  base_url self ++ link.

(** A text with image blocks: pieces of text, each followed by the block of
    a payload, and a last piece. *)
Fixpoint with_blocks (parts : list (str * str)) (last : str) : str :=
  match parts with
  | [] => last
  | (piece, payload) :: parts' =>
      piece ++ svg_block payload ++ with_blocks parts' last
  end.

(** The same text with the blocks taken out. *)
Fixpoint without_blocks (parts : list (str * str)) (last : str) : str :=
  match parts with
  | [] => last
  | (piece, _) :: parts' => piece ++ without_blocks parts' last
  end.

(** The pieces before the blocks do not hold the opening of a block, and the
    payloads are one character or more, none of them a closing
    parenthesis. *)
Definition well_parted (parts : list (str * str)) : Prop :=
  Forall (fun part : str * str =>
            ~ occurs SVG_PREFIX (fst part) /\
            snd part <> [] /\
            ~ In RPAREN (snd part)) parts.

(** ** Concrete texts, pages and sites *)

(** Two images in one text. *)
Definition two_images : list (str * str) :=
  [(u "a ", u "AAAA"); (u " b ", u "BBBB")].

(** An opening that is never closed, before an image. *)
Definition unclosed_opening : str := SVG_PREFIX ++ u "AAA see ".

(** The page of the Sum block with the marker in English. *)
Definition sum_block_markdown_english : str :=
  u "# Sum Block" ++ NEWLINE ++
  u "...Path in library:<br> /Operations/Math |other text".

(** A heading "Примеры" (capital letter) followed by a "смотрите также". *)
Definition examples_then_see_also : str := u "Примеры A смотрите также B".

(** A page of the library: heading, then the line of the library path. *)
Definition sum_block_markdown : str :=
  u "# Sum Block" ++ NEWLINE ++
  u "...Путь в библиотеке:<br> /Operations/Math |other text".

Definition sum_block_metadata : Metadata :=
  {| block_name := u "Sum Block"; block_path := u "/Operations/Math " |}.

Definition sum_block_json : str := u "documentation/.Operations.Math.json".
Definition sum_block_md : str := u "documentation/.Operations.Math.md".

(** The Markdown file of the page cannot be written, the rest can. *)
Definition md_refused : World :=
  {| index_page := mkIndex 200 [];
     page := fun _ => mkPage 404 None;
     writable := fun p => negb (Str.eqb p sum_block_md) |}.

Definition sum_block_page : Article :=
  {| art_text := u "Sum Block Путь в библиотеке: /Operations/Math";
     art_markdown := sum_block_markdown |}.

(** A page that names the library path in its text and has no line of the
    form the path is read from. *)
Definition overview_page : Article :=
  {| art_text := u "Overview Путь в библиотеке зависит от версии";
     art_markdown :=
       u "# Overview" ++ NEWLINE ++ u "Путь в библиотеке зависит от версии" |}.

(** A page of the interfaces library. *)
Definition can_pack_page : Article :=
  {| art_text := u "CAN Pack Путь в библиотеке: /Interfaces/CAN/CAN Pack";
     art_markdown :=
       u "# CAN Pack" ++ NEWLINE ++
       u "Путь в библиотеке:<br> /Interfaces/CAN/CAN Pack |" |}.

Definition url_of (link : str) : str := base_url init ++ link.

(** A site with the three pages; the index lists [links]. *)
Definition site (status : Z) (links : list str) : World :=
  {| index_page := mkIndex status [links];
     page := fun url =>
       if Str.eqb url (url_of (u "sum.html"))
       then mkPage 200 (Some sum_block_page)
       else if Str.eqb url (url_of (u "overview.html"))
       then mkPage 200 (Some overview_page)
       else if Str.eqb url (url_of (u "can-pack.html"))
       then mkPage 200 (Some can_pack_page)
       else mkPage 404 None;
     writable := fun _ => true |}.

Definition index_url : str := base_url init ++ INDEX_NAME.

Definition counts_printed (s : Sys) : bool :=
  existsb (fun o => match o with
                    | LinksParsingStarted => false
                    | _ => true
                    end) (console s).

(** * Properties *)

(** ** Strings *)

Lemma startswith_app (w post : str) : startswith w (w ++ post) = true.
Proof.
  induction w as [|x w IH]; simpl; [reflexivity|].
  now rewrite N.eqb_refl.
Qed.

Lemma startswith_inv (w t : str) :
  startswith w t = true -> exists post, t = w ++ post.
Proof.
  revert t; induction w as [|x w IH]; intros t H.
  - now exists t.
  - destruct t as [|y t]; simpl in H; [discriminate|].
    apply andb_true_iff in H as [Hxy Hw].
    apply N.eqb_eq in Hxy; subst y.
    destruct (IH _ Hw) as [post ->].
    now exists post.
Qed.

Lemma contains_head (w t : str) : startswith w t = true -> contains w t = true.
Proof.
  intros H; destruct t; simpl; now rewrite H.
Qed.

Lemma contains_occurs (w t : str) : contains w t = true <-> occurs w t.
Proof.
  split.
  - induction t as [|c t IH]; simpl; intros H.
    + rewrite orb_false_r in H.
      destruct (startswith_inv _ _ H) as [post E].
      now exists [], post.
    + apply orb_true_iff in H as [H|H].
      * destruct (startswith_inv _ _ H) as [post E].
        now exists [], post.
      * destruct (IH H) as (pre & post & ->).
        now exists (c :: pre), post.
  - intros (pre & post & ->).
    induction pre as [|c pre IH].
    + cbn [app]. apply contains_head, startswith_app.
    + simpl. rewrite IH. apply orb_true_r.
Qed.

Lemma contains_false_occurs (w t : str) : contains w t = false <-> ~ occurs w t.
Proof.
  rewrite <- contains_occurs.
  destruct (contains w t); intuition congruence.
Qed.

Lemma rfind_lower_bound (w t : str) : (-1 <= rfind w t)%Z.
Proof.
  induction t as [|c t IH]; simpl.
  - destruct (startswith w []); lia.
  - destruct (rfind w t =? -1)%Z; [destruct (startswith w (c :: t))|]; lia.
Qed.

Lemma rfind_found (w t : str) (n : nat) :
  rfind w t = Z.of_nat n ->
  startswith w (skipn n t) = true /\ n <= length t.
Proof.
  revert n; induction t as [|c t IH]; intros n; simpl rfind.
  - destruct (startswith w []) eqn:E; intros H; [|lia].
    assert (n = 0) by lia; subst n. simpl. split; [exact E|lia].
  - destruct (rfind w t =? -1)%Z eqn:R.
    + destruct (startswith w (c :: t)) eqn:E; intros H; [|lia].
      assert (n = 0) by lia; subst n. simpl skipn. split; [exact E|simpl; lia].
    + apply Z.eqb_neq in R. pose proof (rfind_lower_bound w t) as B.
      intros H. destruct n as [|n]; [lia|].
      destruct (IH n) as [Hs Hl]; [lia|].
      split; [exact Hs|simpl; lia].
Qed.

Lemma rfind_head (w t : str) : startswith w t = true -> (0 <= rfind w t)%Z.
Proof.
  intros H. destruct t as [|c t]; simpl; rewrite H; [lia|].
  pose proof (rfind_lower_bound w t).
  destruct (rfind w t =? -1)%Z; lia.
Qed.

Lemma rfind_last (w pre post : str) :
  (Z.of_nat (length pre) <= rfind w (pre ++ w ++ post))%Z.
Proof.
  induction pre as [|c pre IH].
  - cbn [app length]. apply rfind_head, startswith_app.
  - simpl app. simpl rfind.
    destruct (rfind w (pre ++ w ++ post) =? -1)%Z eqn:R.
    + apply Z.eqb_eq in R. lia.
    + simpl length. lia.
Qed.

Lemma rfind_absent (w t : str) : rfind w t = (-1)%Z <-> ~ occurs w t.
Proof.
  split.
  - intros H (pre & post & ->).
    pose proof (rfind_last w pre post). lia.
  - intros H.
    pose proof (rfind_lower_bound w t) as B.
    destruct (Z.eq_dec (rfind w t) (-1)) as [E|E]; [exact E|].
    exfalso; apply H.
    destruct (rfind_found w t (Z.to_nat (rfind w t))) as [Hs _]; [lia|].
    destruct (startswith_inv _ _ Hs) as [post E'].
    exists (firstn (Z.to_nat (rfind w t)) t), post.
    now rewrite <- E', firstn_skipn.
Qed.

Lemma slice_to_nat (t : str) (n : nat) : slice_to t (Z.of_nat n) = firstn n t.
Proof.
  unfold slice_to.
  destruct (Z.of_nat n <? 0)%Z eqn:E; [apply Z.ltb_lt in E; lia|].
  now rewrite Nat2Z.id.
Qed.

(** ** The truncation pass of [pretiffy_data] *)

Lemma cut_at_last_unique (w c r1 r2 : str) :
  cut_at_last w c r1 -> cut_at_last w c r2 -> r1 = r2.
Proof.
  intros [[x1 E1] L1] [[x2 E2] L2].
  pose proof (L1 _ _ E2). pose proof (L2 _ _ E1).
  assert (length r1 = length r2) as EL by lia.
  rewrite E1 in E2.
  apply (f_equal (firstn (length r1))) in E2.
  rewrite firstn_app, Nat.sub_diag, firstn_all in E2; simpl in E2.
  rewrite app_nil_r in E2. rewrite E2, EL.
  rewrite firstn_app, Nat.sub_diag, firstn_all; simpl.
  now rewrite app_nil_r.
Qed.

Section Truncation.

Variable lower : str -> str.

Lemma truncated_unique ws c r1 r2 :
  truncated lower ws c r1 -> truncated lower ws c r2 -> r1 = r2.
Proof.
  intros H1; revert r2; induction H1; intros r2 H2; inversion H2; subst;
    try reflexivity; try contradiction; eauto using cut_at_last_unique.
Qed.

Lemma scan_words_cut (w c : str) :
  rfind w c <> (-1)%Z -> cut_at_last w c (slice_to c (rfind w c)).
Proof.
  intros R. pose proof (rfind_lower_bound w c) as B.
  destruct (rfind_found w c (Z.to_nat (rfind w c))) as [Hs Hl]; [lia|].
  replace (rfind w c) with (Z.of_nat (Z.to_nat (rfind w c))) at 1 by lia.
  rewrite slice_to_nat. split.
  - destruct (startswith_inv _ _ Hs) as [rest E].
    exists rest. now rewrite <- E, firstn_skipn.
  - intros pre post E.
    rewrite length_firstn.
    pose proof (rfind_last w pre post) as L. rewrite <- E in L. lia.
Qed.

Lemma scan_words_truncated (ws : list str) (c : str) :
  truncated lower ws c (scan_words lower ws c).
Proof.
  induction ws as [|w ws IH]; simpl; [constructor|].
  destruct (contains w (lower c)) eqn:C.
  - destruct (rfind w c =? -1)%Z eqn:R; simpl.
    + apply Z.eqb_eq in R. apply truncated_skip; [|exact IH].
      intros [_ O]. now apply rfind_absent in R.
    + apply Z.eqb_neq in R. apply truncated_cut.
      * split; [now apply contains_occurs|].
        destruct (contains w c) eqn:C'; [now apply contains_occurs|].
        apply contains_false_occurs, rfind_absent in C'. contradiction.
      * now apply scan_words_cut.
  - apply truncated_skip; [|exact IH].
    intros [O _]. apply contains_occurs in O. congruence.
Qed.

(** Where no phrase is usable the loop returns the text. *)
Lemma scan_words_unusable (ws : list str) (c : str) :
  (forall w, In w ws -> ~ usable lower w c) -> scan_words lower ws c = c.
Proof.
  induction ws as [|w ws IH]; intros H; simpl; [reflexivity|].
  rewrite IH by (intros; apply H; now right).
  destruct (contains w (lower c)) eqn:C; [|reflexivity].
  destruct (rfind w c =? -1)%Z eqn:R; [reflexivity|].
  exfalso. apply (H w); [now left|].
  split; [now apply contains_occurs|].
  apply Z.eqb_neq in R.
  destruct (contains w c) eqn:C'; [now apply contains_occurs|].
  apply contains_false_occurs, rfind_absent in C'. contradiction.
Qed.

End Truncation.

(** ** C1 and X8: the truncation pass *)

(** X8.  What the truncation pass computes, for every Markdown input: it
    goes through the fixed list of marker phrases in its order; a phrase
    counts when it occurs in the case-folded text and also occurs in the
    text itself spelled as in the list; for the first phrase that counts the
    text is cut at the last occurrence of that phrase, and everything from
    there on is dropped; a phrase found only in another letter case is
    passed over; when no phrase counts, the text is returned as it is. *)
Theorem pretiffy_data_truncation (lower : str -> str) (markdown_text : str) :
  truncated lower TARGET_WORDS
    (Re.sub_empty removing_pattern markdown_text)
    (pretiffy_data lower markdown_text).
Proof.
  unfold pretiffy_data. apply scan_words_truncated.
Qed.

Ltac decide_occurs :=
  match goal with
  | H : occurs _ _ |- _ =>
      apply contains_occurs in H; vm_compute in H; discriminate H
  | H : ~ occurs _ _ |- _ =>
      apply H, contains_occurs; vm_compute; reflexivity
  end.

(** C1.  On a text with the heading "Примеры" and a later "смотрите также"
    the code goes against the claim: the "examples" phrase is the first one
    found in the case-folded text, none of the phrases before it is found,
    yet the text is not cut at it; the search for the place of the cut is
    made in the text as it is, finds nothing, and the cut is made at
    "смотрите также". *)
Lemma pretiffy_data_cuts_at_see_also :
  occurs (u "примеры") (Str.lower examples_then_see_also) /\
  pretiffy_data Str.lower examples_then_see_also = u "Примеры A " /\
  ~ truncated_as_specified Str.lower TARGET_WORDS
      (Re.sub_empty removing_pattern examples_then_see_also)
      (pretiffy_data Str.lower examples_then_see_also).
Proof.
  assert (Re.sub_empty removing_pattern examples_then_see_also
          = examples_then_see_also) as -> by (vm_compute; reflexivity).
  assert (pretiffy_data Str.lower examples_then_see_also = u "Примеры A ")
    as -> by (vm_compute; reflexivity).
  split; [apply contains_occurs; vm_compute; reflexivity|].
  split; [reflexivity|].
  unfold TARGET_WORDS. intros H.
  inversion H as [| ? ? ? ? O1 C | ? ? ? ? O1 H1]; subst; clear H;
    [decide_occurs|].
  inversion H1 as [| ? ? ? ? O2 C | ? ? ? ? O2 H2]; subst; clear H1;
    [decide_occurs|].
  inversion H2 as [| ? ? ? ? O3 C | ? ? ? ? O3 H3]; subst; clear H2;
    [decide_occurs|].
  inversion H3 as [| ? ? ? ? O4 C | ? ? ? ? O4 H4]; subst; clear H3.
  - destruct C as [[rest E] _]. vm_compute in E. discriminate E.
  - apply O4, contains_occurs. vm_compute. reflexivity.
Qed.

(** ** The matcher on the two patterns *)

Lemma match_here_lits (s : str) (r : Re.regex) (t : str) :
  Re.match_here (Re.lits s ++ r) t =
  if startswith s t then Re.match_here r (skipn (length s) t) else None.
Proof.
  revert t; induction s as [|x s IH]; intros t; [reflexivity|].
  destruct t as [|y t]; [reflexivity|].
  cbn [Re.lits map app Re.match_here Re.cls_ok startswith length skipn].
  rewrite N.eqb_sym.
  destruct (x =? y)%N; [apply IH|reflexivity].
Qed.

Lemma match_here_many (k : Re.cls) (r : Re.regex) (t : str) :
  Re.match_here (Re.Many k :: r) t =
  match t with
  | c :: t' =>
      if Re.cls_ok k c
      then match Re.match_here (Re.Many k :: r) t' with
           | Some m => Some m
           | None => Re.match_here r t
           end
      else Re.match_here r t
  | [] => Re.match_here r []
  end.
Proof.
  destruct t; reflexivity.
Qed.

Lemma match_here_one (k : Re.cls) (r : Re.regex) (c : N) (t : str) :
  Re.match_here (Re.One k :: r) (c :: t) =
  if Re.cls_ok k c then Re.match_here r t else None.
Proof. reflexivity. Qed.

(** [[^d]*d]: the run of characters other than [d], then [d]. *)
Lemma match_run_then_lit (d : N) (run rest : str) :
  ~ In d run ->
  Re.match_here [Re.Many (Re.NotLit d); Re.One (Re.Lit d)] (run ++ d :: rest)
  = Some ([], rest).
Proof.
  induction run as [|c run IH]; intros H.
  - rewrite match_here_many. cbn [app Re.cls_ok].
    rewrite N.eqb_refl. cbn [negb]. rewrite match_here_one.
    cbn [Re.cls_ok]. now rewrite N.eqb_refl.
  - rewrite match_here_many. cbn [app Re.cls_ok].
    destruct (c =? d)%N eqn:E.
    + apply N.eqb_eq in E. exfalso; apply H; now left.
    + cbn [negb]. rewrite IH; [reflexivity|].
      intros I; apply H; now right.
Qed.

Lemma match_run_then_lit_inv (d : N) (t : str) (m : list str * str) :
  Re.match_here [Re.Many (Re.NotLit d); Re.One (Re.Lit d)] t = Some m ->
  exists run, ~ In d run /\ t = run ++ d :: snd m.
Proof.
  induction t as [|c t IH]; rewrite match_here_many.
  - discriminate.
  - rewrite match_here_one. cbn [Re.cls_ok].
    destruct (c =? d)%N eqn:E; cbn [negb].
    + apply N.eqb_eq in E; subst c. cbn [Re.match_here].
      intros H; injection H as <-.
      exists []. split; [intros []|reflexivity].
    + destruct (Re.match_here _ t) as [m'|]; [|discriminate].
      intros H; injection H as ->. destruct (IH eq_refl) as (run & Hr & ->).
      exists (c :: run). split; [|reflexivity].
      intros [->|I]; [|contradiction].
      now rewrite N.eqb_refl in E.
Qed.

Lemma removing_pattern_matches (payload post : str) :
  payload <> [] -> ~ In RPAREN payload ->
  Re.match_here removing_pattern (svg_block payload ++ post) = Some ([], post).
Proof.
  intros Hne Hin. unfold removing_pattern, svg_block.
  rewrite match_here_lits, <- !app_assoc, startswith_app, skipn_app.
  rewrite Nat.sub_diag, skipn_all. cbn [app skipn].
  destruct payload as [|c payload]; [contradiction|].
  cbn [Re.plus Re.lits map app]. rewrite match_here_one. cbn [Re.cls_ok].
  destruct (c =? RPAREN)%N eqn:E.
  - apply N.eqb_eq in E. exfalso; apply Hin; now left.
  - cbn [negb]. apply match_run_then_lit.
    intros I; apply Hin; now right.
Qed.

Lemma removing_pattern_matches_inv (t : str) (m : list str * str) :
  Re.match_here removing_pattern t = Some m ->
  exists payload,
    payload <> [] /\ ~ In RPAREN payload /\ t = svg_block payload ++ snd m.
Proof.
  unfold removing_pattern. rewrite match_here_lits.
  destruct (startswith SVG_PREFIX t) eqn:S; [|discriminate].
  destruct (startswith_inv _ _ S) as [x ->].
  rewrite skipn_app, Nat.sub_diag, skipn_all. cbn [app skipn].
  destruct x as [|c x]; [discriminate|].
  cbn [Re.plus Re.lits map app]. rewrite match_here_one. cbn [Re.cls_ok].
  destruct (c =? RPAREN)%N eqn:E; cbn [negb]; [discriminate|].
  intros H. destruct (match_run_then_lit_inv _ _ H) as (run & Hr & ->).
  exists (c :: run). split; [discriminate|]. split.
  - intros [->|I]; [|contradiction]. now rewrite N.eqb_refl in E.
  - unfold svg_block. now rewrite <- !app_assoc.
Qed.

Lemma sub_go_skip (r : Re.regex) (a b : str) :
  Re.sub_go r (length a) (a ++ b) = Re.sub_go r 0 b.
Proof.
  induction a as [|c a IH]; [reflexivity|exact IH].
Qed.

Lemma sub_go_no_match (r : Re.regex) (c : N) (t : str) :
  Re.match_here r (c :: t) = None ->
  Re.sub_go r 0 (c :: t) = c :: Re.sub_go r 0 t.
Proof.
  intros H. cbn [Re.sub_go]. now rewrite H.
Qed.

(** A text without image block is left as it is. *)
Lemma sub_without_block (t : str) :
  ~ has_svg_block t -> Re.sub_empty removing_pattern t = t.
Proof.
  unfold Re.sub_empty. induction t as [|c t IH]; intros H; [reflexivity|].
  rewrite sub_go_no_match.
  - f_equal. apply IH. intros (pre & payload & post & Hne & Hin & ->).
    apply H. exists (c :: pre), payload, post.
    split; [exact Hne|]. split; [exact Hin|reflexivity].
  - destruct (Re.match_here removing_pattern (c :: t)) as [m|] eqn:E;
      [|reflexivity].
    destruct (removing_pattern_matches_inv _ E) as (payload & Hne & Hin & Et).
    exfalso; apply H. exists [], payload, (snd m).
    split; [exact Hne|]. split; [exact Hin|]. cbn [app]. exact Et.
Qed.

Lemma occurs_prefix_of_block (t : str) :
  has_svg_block t -> occurs SVG_PREFIX t.
Proof.
  intros (pre & payload & post & _ & _ & ->).
  exists pre, (payload ++ [RPAREN] ++ post).
  unfold svg_block. now rewrite <- !app_assoc.
Qed.

(** A word whose first character does not come back in it cannot start
    inside [s] and run over into a copy of itself. *)
Lemma startswith_no_overlap (a : N) (q s z : str) :
  ~ In a q -> startswith q (s ++ a :: z) = true -> startswith q s = true.
Proof.
  revert s; induction q as [|x q IH]; intros s Hin H; [reflexivity|].
  destruct s as [|y s]; cbn [app startswith] in *.
  - apply andb_true_iff in H as [E _]. apply N.eqb_eq in E.
    exfalso; apply Hin; now left.
  - apply andb_true_iff in H as [E H]. rewrite E. cbn.
    apply IH; [|exact H]. intros I; apply Hin; now right.
Qed.

Lemma svg_prefix_shape : exists q, SVG_PREFIX = 91%N :: q /\ ~ In 91%N q.
Proof.
  eexists; split; [vm_compute; reflexivity|].
  cbn. intuition discriminate.
Qed.

Lemma sub_before_block (pre payload post : str) :
  payload <> [] -> ~ In RPAREN payload -> ~ occurs SVG_PREFIX pre ->
  Re.sub_empty removing_pattern (pre ++ svg_block payload ++ post)
  = pre ++ Re.sub_empty removing_pattern post.
Proof.
  intros Hne Hin. unfold Re.sub_empty.
  induction pre as [|c pre IH]; intros Hpre.
  - cbn [app]. pose proof (removing_pattern_matches post Hne Hin) as Hm.
    destruct (svg_block payload) as [|b blk] eqn:B.
    { unfold svg_block, SVG_PREFIX in B. discriminate B. }
    cbn [app Re.sub_go] in *. rewrite Hm.
    replace (length (b :: blk ++ post) - length post) with (S (length blk))
      by (cbn [length]; rewrite length_app; lia).
    apply sub_go_skip.
  - cbn [app]. rewrite sub_go_no_match.
    + f_equal. apply IH. intros (x & y & ->).
      apply Hpre. now exists (c :: x), y.
    + unfold removing_pattern. rewrite match_here_lits.
      destruct (startswith SVG_PREFIX _) eqn:S; [|reflexivity].
      exfalso; apply Hpre, contains_occurs, contains_head.
      destruct svg_prefix_shape as (q & Eq & Hq).
      unfold svg_block in S. rewrite Eq in *.
      cbn [app startswith] in *.
      apply andb_true_iff in S as [E S]. rewrite E. cbn.
      now apply startswith_no_overlap in S.
Qed.

(** ** C8: the image blocks are removed *)

Lemma sub_with_blocks (parts : list (str * str)) (last : str) :
  well_parted parts -> ~ has_svg_block last ->
  Re.sub_empty removing_pattern (with_blocks parts last)
  = without_blocks parts last.
Proof.
  intros W L. induction W as [|[piece payload] parts (Hp & Hne & Hin) W IH].
  - cbn [with_blocks without_blocks]. now apply sub_without_block.
  - cbn [with_blocks without_blocks fst snd] in *.
    rewrite sub_before_block by assumption. now rewrite IH.
Qed.

(** C8 (as amended).  For every text made of pieces of text separated by
    image blocks (the Markdown image reference that opens with
    [SVG_PREFIX], carries a payload of one character or more, none of them a
    closing parenthesis, and closes with a parenthesis), where no piece
    before a block holds the opening of a block and the last piece holds no
    block, the first pass of the sanitizer removes every block, whatever
    their number and the length of their payloads, and leaves the pieces as
    they are, in their order; the sanitizer's result is the truncation of
    that text without blocks, and is that text itself when no marker phrase
    is usable in it. *)
Theorem svg_blocks_removed (lower : str -> str) (parts : list (str * str))
    (last : str) :
  well_parted parts -> ~ has_svg_block last ->
  Re.sub_empty removing_pattern (with_blocks parts last)
    = without_blocks parts last /\
  truncated lower TARGET_WORDS (without_blocks parts last)
    (pretiffy_data lower (with_blocks parts last)) /\
  ((forall w, In w TARGET_WORDS ->
              ~ usable lower w (without_blocks parts last)) ->
   pretiffy_data lower (with_blocks parts last) = without_blocks parts last).
Proof.
  intros W L. pose proof (sub_with_blocks W L) as E.
  split; [exact E|]. unfold pretiffy_data. rewrite E. split.
  - apply scan_words_truncated.
  - apply scan_words_unusable.
Qed.

Lemma no_block_by_prefix (t : str) :
  contains SVG_PREFIX t = false -> ~ has_svg_block t.
Proof.
  intros C H. apply occurs_prefix_of_block, contains_occurs in H. congruence.
Qed.

Lemma svg_blocks_removed_witness :
  Re.sub_empty removing_pattern (with_blocks two_images (u " c")) = u "a  b  c" /\
  pretiffy_data Str.lower (with_blocks two_images (u " c")) = u "a  b  c".
Proof.
  change (u "a  b  c") with (without_blocks two_images (u " c")).
  assert (well_parted two_images) as W.
  { unfold two_images, well_parted.
    repeat (constructor;
            [split; [apply contains_false_occurs; vm_compute; reflexivity|];
             split; [discriminate|vm_compute; intuition discriminate]|]).
    constructor. }
  assert (~ has_svg_block (u " c")) as L
    by (apply no_block_by_prefix; vm_compute; reflexivity).
  destruct (@svg_blocks_removed Str.lower two_images (u " c") W L)
    as (E & _ & F).
  split; [exact E|]. apply F.
  intros w Hw [_ O]. apply contains_occurs in O.
  unfold TARGET_WORDS in Hw.
  repeat (destruct Hw as [<-|Hw]; [vm_compute in O; discriminate O|]).
  destruct Hw.
Defined.

(** C8 (as stated) fails: the text around an image is not always left as it
    is.  A second image after the first is removed as well, and an opening
    that is never closed before the image is removed with it. *)
Lemma svg_block_surroundings_altered :
  (u "AAAA" <> [] /\ ~ In RPAREN (u "AAAA") /\
   Re.sub_empty removing_pattern
     (u "a " ++ svg_block (u "AAAA") ++ u " b " ++ svg_block (u "BBBB") ++ u " c")
   = u "a  b  c" /\
   Re.sub_empty removing_pattern
     (u "a " ++ svg_block (u "AAAA") ++ u " b " ++ svg_block (u "BBBB") ++ u " c")
   <> u "a " ++ u " b " ++ svg_block (u "BBBB") ++ u " c") /\
  (Re.sub_empty removing_pattern
     (unclosed_opening ++ svg_block (u "BBBB") ++ u " tail")
   = u " tail" /\
   Re.sub_empty removing_pattern
     (unclosed_opening ++ svg_block (u "BBBB") ++ u " tail")
   <> unclosed_opening ++ u " tail").
Proof.
  split; [split; [discriminate|]; split; [vm_compute; intuition discriminate|]|];
    split; try (vm_compute; reflexivity); vm_compute; discriminate.
Qed.

(** ** C9: text without markers *)

Lemma pretiffy_data_fixed (lower : str -> str) (t : str) :
  (forall w, In w TARGET_WORDS -> ~ usable lower w t) ->
  ~ has_svg_block t ->
  pretiffy_data lower t = t.
Proof.
  intros Hw Hb. unfold pretiffy_data.
  rewrite sub_without_block by assumption.
  now apply scan_words_unusable.
Qed.

(** C9.  For every text in which no marker phrase is present (none is found
    both in the case-folded text and in the text itself, which holds when
    none is found in the case-folded text) and which holds no image block,
    the sanitizer returns the text as it is; so sanitizing it a second time
    changes nothing. *)
Theorem pretiffy_data_unchanged (lower : str -> str) (t : str) :
  (forall w, In w TARGET_WORDS -> ~ usable lower w t) ->
  ~ has_svg_block t ->
  pretiffy_data lower t = t /\
  pretiffy_data lower (pretiffy_data lower t) = pretiffy_data lower t.
Proof.
  intros Hw Hb.
  pose proof (pretiffy_data_fixed Hw Hb) as E.
  split; [exact E|]. now rewrite !E.
Qed.

Lemma pretiffy_data_unchanged_witness :
  pretiffy_data Str.lower (u "# Sum Block: adds its inputs") =
  u "# Sum Block: adds its inputs".
Proof.
  apply pretiffy_data_unchanged.
  - intros w Hw [O _]. apply contains_occurs in O.
    unfold TARGET_WORDS in Hw.
    repeat (destruct Hw as [<-|Hw]; [vm_compute in O; discriminate O|]).
    destruct Hw.
  - apply no_block_by_prefix. vm_compute. reflexivity.
Defined.

(** ** C4: the block name *)

Lemma split_go_newline (cur t : str) :
  hd [] (split_go NEWLINE 0 cur t) = rev cur ++ before_break t.
Proof.
  revert cur; induction t as [|c t IH]; intros cur.
  - simpl. now rewrite app_nil_r.
  - cbn [split_go NEWLINE startswith before_break].
    rewrite N.eqb_sym. destruct (c =? 10)%N.
    + cbn. now rewrite app_nil_r.
    + cbn [andb]. rewrite IH. cbn [rev]. now rewrite <- app_assoc.
Qed.

Lemma first_line_before_break (t : str) : first_line t = before_break t.
Proof.
  unfold first_line, split, NEWLINE.
  pose proof (split_go_newline [] t) as H. unfold NEWLINE in H.
  destruct (split_go [10%N] 0 [] t); exact H.
Qed.

Lemma replace_char (a : N) (new t : str) :
  replace [a] new t = flat_map (fun c => if (c =? a)%N then new else [c]) t.
Proof.
  unfold replace. induction t as [|c t IH]; [reflexivity|].
  cbn [replace_go startswith flat_map length Nat.sub].
  rewrite N.eqb_sym. destruct (c =? a)%N; cbn [andb app]; now rewrite IH.
Qed.

Lemma replace_hash_slash (l : str) :
  replace [SLASH] [DASH] (replace [HASH] [] l) = flat_map name_char l.
Proof.
  rewrite !replace_char. induction l as [|c l IH]; [reflexivity|].
  cbn [flat_map]. rewrite flat_map_app, IH. f_equal.
  unfold name_char. destruct (c =? HASH)%N; [reflexivity|].
  cbn [flat_map]. now rewrite app_nil_r.
Qed.

Lemma In_lstrip (c : N) (t : str) : In c (lstrip t) -> In c t.
Proof.
  induction t as [|x t IH]; simpl; [tauto|].
  destruct (isspace x); simpl; tauto.
Qed.

Lemma In_strip (c : N) (t : str) : In c (strip t) -> In c t.
Proof.
  unfold strip, rstrip. intros H.
  apply In_lstrip. apply in_rev. apply In_lstrip. now apply in_rev in H.
Qed.

Lemma In_name_char (c : N) (l : str) :
  In c (flat_map name_char l) -> c <> HASH /\ c <> SLASH.
Proof.
  intros H. apply in_flat_map in H as (x & _ & H).
  unfold name_char in H.
  destruct (x =? HASH)%N eqn:E1; [destruct H|].
  destruct (x =? SLASH)%N eqn:E2.
  - destruct H as [<-|[]]. split; discriminate.
  - destruct H as [<-|[]]. apply N.eqb_neq in E1, E2. now split.
Qed.

(** C4 (as amended).  For every Markdown text, the block name is the text
    before the first line break with every '#' removed and every '/'
    replaced by '-', trimmed of surrounding white space; it holds neither
    '#' nor '/'.  Taking the name never fails: on the empty text the name is
    the empty string, and what fails there is the search for the library
    path. *)
Theorem get_block_name_spec (markdown_text : str) :
  get_block_name markdown_text
    = strip (flat_map name_char (before_break markdown_text)) /\
  ~ In HASH (get_block_name markdown_text) /\
  ~ In SLASH (get_block_name markdown_text) /\
  get_block_name [] = [] /\
  get_block_metadata [] = Raise AttributeError.
Proof.
  assert (get_block_name markdown_text
          = strip (flat_map name_char (before_break markdown_text))) as E.
  { unfold get_block_name. rewrite first_line_before_break.
    change (u "/") with [SLASH]. change (u "-") with [DASH].
    change (u "#") with [HASH]. change (u "") with (@nil N).
    now rewrite replace_hash_slash. }
  split; [exact E|]. rewrite E.
  split; [|split; [|split; reflexivity]].
  - intros H. apply In_strip, In_name_char in H. tauto.
  - intros H. apply In_strip, In_name_char in H. tauto.
Qed.

(** C4 (as stated) fails: the '/' of a heading is replaced, not taken out,
    and the empty text gives the empty name. *)
Lemma get_block_name_replaces_slash :
  get_block_name (u "# Input/Output") = u "Input-Output" /\
  name_as_specified (u "# Input/Output") = u "InputOutput" /\
  get_block_name (u "# Input/Output") <> name_as_specified (u "# Input/Output") /\
  get_block_name (u "") = u "".
Proof.
  repeat split; try (vm_compute; reflexivity).
  vm_compute. discriminate.
Qed.

(** ** C5: the validator *)

(** C5.  For every page text, the validator answers true exactly when the
    case-folded text holds the phrase "путь в библиотеке" (path in library)
    and none of the configured markers of blocked libraries occurs in it; in
    every other case it answers false.  It is a function of the object's
    fields and the text alone. *)
Theorem validate_page_iff (lower : str -> str) (self : Downloader) (body : Article) :
  validate_page lower self body = true <->
  occurs DOC_MARKER (lower (art_text body)) /\
  forall blocked, In blocked (blocked_libs self) ->
                  ~ occurs blocked (lower (art_text body)).
Proof.
  unfold validate_page.
  destruct (contains DOC_MARKER (lower (art_text body))) eqn:C.
  - destruct (existsb _ (blocked_libs self)) eqn:B.
    + split; [discriminate|]. intros [_ H].
      apply existsb_exists in B as (b & Hb & Cb).
      exfalso. apply (H b Hb). now apply contains_occurs.
    + split; [|reflexivity]. intros _. split; [now apply contains_occurs|].
      intros b Hb O. apply contains_occurs in O.
      assert (existsb (fun blocked_type =>
                contains blocked_type (lower (art_text body)))
                (blocked_libs self) = true) as B'
        by (apply existsb_exists; eauto).
      congruence.
  - split; [discriminate|]. intros [O _].
    apply contains_occurs in O. congruence.
Qed.

(** ** The library path *)

Lemma match_here_many_inv (k : Re.cls) (r : Re.regex) (t : str) m :
  Re.match_here (Re.Many k :: r) t = Some m ->
  exists run t', t = run ++ t' /\ Re.match_here r t' = Some m.
Proof.
  induction t as [|c t IH]; rewrite match_here_many.
  - intros H. now exists [], [].
  - destruct (Re.cls_ok k c).
    + destruct (Re.match_here (Re.Many k :: r) t) as [m'|].
      * intros H; injection H as ->.
        destruct (IH eq_refl) as (run & t' & -> & Ht').
        now exists (c :: run), t'.
      * intros H. now exists [], (c :: t).
    + intros H. now exists [], (c :: t).
Qed.

Lemma match_here_mark (r : Re.regex) (t : str) m :
  Re.match_here (Re.Mark :: r) t = Some m ->
  exists ms, Re.match_here r t = Some (ms, snd m) /\ fst m = t :: ms.
Proof.
  cbn [Re.match_here]. destruct m as [ms' rest'].
  destruct (Re.match_here r t) as [[ms rest]|]; [|discriminate].
  intros H; injection H as <- <-. now exists ms.
Qed.

Lemma search_inv (r : Re.regex) (t : str) m :
  Re.search r t = Some m ->
  exists pre t', t = pre ++ t' /\ Re.match_here r t' = Some m.
Proof.
  induction t as [|c t IH]; cbn [Re.search].
  - destruct (Re.match_here r []) eqn:E; [|discriminate].
    intros H; injection H as ->. now exists [], [].
  - destruct (Re.match_here r (c :: t)) eqn:E.
    + intros H; injection H as ->. now exists [], (c :: t).
    + intros H. destruct (IH H) as (pre & t' & -> & Ht').
      now exists (c :: pre), t'.
Qed.

(** A path the pattern captures is a '/' followed by at least one
    character. *)
Lemma path_pattern_group (t : str) m :
  Re.match_here path_pattern t = Some m ->
  exists c run, Re.group1 m = Some (SLASH :: c :: run).
Proof.
  unfold path_pattern. rewrite match_here_lits.
  destruct (startswith PATH_MARKER t); [|discriminate].
  generalize (skipn (length PATH_MARKER) t); clear t; intros t.
  cbn [app]. intros H.
  apply match_here_many_inv in H as (ws & t1 & _ & H).
  apply match_here_mark in H as (ms & H & Hm).
  destruct t1 as [|c1 t1]; [discriminate|].
  rewrite match_here_one in H. cbn [Re.cls_ok] in H.
  destruct (c1 =? SLASH)%N eqn:E1; [|discriminate].
  apply N.eqb_eq in E1; subst c1.
  cbn [Re.plus app] in H.
  destruct t1 as [|c2 t2]; [discriminate|].
  rewrite match_here_one in H.
  destruct (Re.cls_ok (Re.NotLit BAR) c2); [|discriminate].
  apply match_here_many_inv in H as (run & t3 & -> & H).
  cbn [Re.match_here] in H. injection H as <- _.
  exists c2, run. unfold Re.group1. rewrite Hm.
  cbn [length]. rewrite length_app.
  replace (S (S (length run + length t3)) - length t3)
    with (S (S (length run))) by lia.
  cbn [firstn]. rewrite firstn_app, Nat.sub_diag, firstn_all.
  cbn [firstn]. now rewrite app_nil_r.
Qed.

Lemma get_block_path_shape (t p : str) :
  get_block_path t = Ok p -> exists c run, p = SLASH :: c :: run.
Proof.
  unfold get_block_path.
  destruct (Re.search path_pattern t) as [m|] eqn:S; [|discriminate].
  apply search_inv in S as (pre & t' & _ & H).
  apply path_pattern_group in H as (c & run & ->).
  intros H; injection H as <-. now exists c, run.
Qed.

Lemma dotted_nonempty (t : str) (metadata : Metadata) :
  get_block_metadata t = Ok metadata ->
  exists d rest, dotted metadata = d :: rest.
Proof.
  unfold get_block_metadata.
  destruct (get_block_path t) as [p|e] eqn:P; [|discriminate].
  intros H; injection H as <-.
  apply get_block_path_shape in P as (c & run & ->).
  unfold dotted. cbn [block_path].
  change (u "/") with [SLASH]. change (u ".") with [46%N].
  rewrite replace_char. cbn [flat_map]. rewrite N.eqb_refl.
  cbn [app]. eauto.
Qed.

(** ** C10: the two files of a page *)

Lemma save_md_steps (lower : str -> str) (self : Downloader)
    (w : World) (body : Article) (s : Sys) (metadata : Metadata) :
  get_block_metadata (pretiffy_data lower (art_markdown body)) = Ok metadata ->
  save_md lower self w body s =
    if writable w (json_file self metadata)
    then
      let s1 := write_file (json_file self metadata) (JsonDump metadata) s in
      if writable w (md_file self metadata)
      then (Ok true,
            write_file (md_file self metadata)
              (Text (pretiffy_data lower (art_markdown body))) s1)
      else (Ok false, s1)
    else (Raise OSError, s).
Proof.
  intros H. destruct (dotted_nonempty _ H) as (d & rest & D).
  unfold save_md, bind, lift, try_except, save_block_metadata, open_write, ret.
  rewrite H, D.
  destruct (writable w (json_file self metadata)); [|reflexivity].
  cbn zeta.
  destruct (writable w (md_file self metadata)); reflexivity.
Qed.

(** C10.  For every page whose metadata can be extracted, the metadata file
    is written first and the Markdown file is attempted after it: where the
    metadata file cannot be opened nothing is written and the error leaves
    the function; where it can, it is written, and if the Markdown file then
    cannot be written the outcome of the page is [False] while the metadata
    file stays as written. *)
Theorem save_md_metadata_first (lower : str -> str) (self : Downloader)
    (w : World) (body : Article) (s : Sys) (metadata : Metadata) :
  get_block_metadata (pretiffy_data lower (art_markdown body)) = Ok metadata ->
  save_md lower self w body s =
    if writable w (json_file self metadata)
    then
      let s1 := write_file (json_file self metadata) (JsonDump metadata) s in
      if writable w (md_file self metadata)
      then (Ok true,
            write_file (md_file self metadata)
              (Text (pretiffy_data lower (art_markdown body))) s1)
      else (Ok false, s1)
    else (Raise OSError, s).
Proof.
  exact (@save_md_steps lower self w body s metadata).
Qed.

Lemma save_md_metadata_first_witness :
  save_md Str.lower init md_refused (mkArticle [] sum_block_markdown) empty_sys
  = (Ok false, write_file sum_block_json (JsonDump sum_block_metadata) empty_sys).
Proof.
  rewrite (@save_md_metadata_first Str.lower init md_refused
             (mkArticle [] sum_block_markdown) empty_sys sum_block_metadata).
  - vm_compute. reflexivity.
  - vm_compute. reflexivity.
Defined.

(** ** C6: the round trip of the metadata *)

Lemma sum_block_markdown_fixed (lower : str -> str) :
  pretiffy_data lower sum_block_markdown = sum_block_markdown.
Proof.
  apply pretiffy_data_fixed.
  - intros w Hw [_ O]. apply contains_occurs in O.
    unfold TARGET_WORDS in Hw.
    repeat (destruct Hw as [<-|Hw]; [vm_compute in O; discriminate O|]).
    destruct Hw.
  - apply no_block_by_prefix. vm_compute. reflexivity.
Qed.

(** C6 (as amended).  For the Markdown text "# Sum Block", line break,
    "...Путь в библиотеке:<br> /Operations/Math |other text" (the marker
    of the library path spelled as the pattern has it), the metadata are
    the name
    "Sum Block" and the path "/Operations/Math " with its trailing space;
    the stem of the file names is the path with every '/' turned into '.',
    trailing space dropped: the metadata go to
    documentation/.Operations.Math.json and the text to
    documentation/.Operations.Math.md. *)
Theorem sum_block_round_trip :
  get_block_metadata sum_block_markdown = Ok sum_block_metadata /\
  dotted sum_block_metadata = u ".Operations.Math " /\
  json_file init sum_block_metadata = sum_block_json /\
  md_file init sum_block_metadata = sum_block_md /\
  forall (lower : str -> str) (w : World) (text : str) (s : Sys),
    save_md lower init w (mkArticle text sum_block_markdown) s =
      if writable w sum_block_json
      then
        let s1 := write_file sum_block_json (JsonDump sum_block_metadata) s in
        if writable w sum_block_md
        then (Ok true, write_file sum_block_md (Text sum_block_markdown) s1)
        else (Ok false, s1)
      else (Raise OSError, s).
Proof.
  assert (get_block_metadata sum_block_markdown = Ok sum_block_metadata) as M
    by (vm_compute; reflexivity).
  assert (json_file init sum_block_metadata = sum_block_json) as J
    by (vm_compute; reflexivity).
  assert (md_file init sum_block_metadata = sum_block_md) as D
    by (vm_compute; reflexivity).
  split; [exact M|]. split; [vm_compute; reflexivity|].
  split; [exact J|]. split; [exact D|].
  intros lower w text s.
  rewrite (@save_md_steps lower init w (mkArticle text sum_block_markdown) s
             sum_block_metadata)
    by (cbn [art_markdown]; rewrite sum_block_markdown_fixed; exact M).
  cbn [art_markdown]. now rewrite sum_block_markdown_fixed, J, D.
Qed.

(** ** The crawl *)

(** C2.  The page "overview.html" passes the validator and has no line of
    the library path.  Taking its metadata raises, its task raises
    [AttributeError] instead of answering [False], the exception leaves
    [gather] and [main], and the run ends with it: no count is printed,
    whether the page comes before or after a page that is in order. *)
Theorem missing_path_ends_the_run :
  validate_page Str.lower init overview_page = true /\
  get_block_metadata (pretiffy_data Str.lower (art_markdown overview_page))
    = Raise AttributeError /\
  (forall links s,
     catch_and_convert Str.lower init (site 200 links) (u "overview.html") s
     = (Raise AttributeError, request (url_of (u "overview.html")) s)) /\
  (let r := entry_point Str.lower
              (site 200 [u "overview.html"; u "sum.html"]) empty_sys in
   fst r = Raise AttributeError /\
   console (snd r) = [LinksParsingStarted] /\
   counts_printed (snd r) = false) /\
  (let r := entry_point Str.lower
              (site 200 [u "sum.html"; u "overview.html"]) empty_sys in
   fst r = Raise AttributeError /\
   console (snd r) = [LinksParsingStarted] /\
   counts_printed (snd r) = false).
Proof.
  split; [vm_compute; reflexivity|].
  split; [vm_compute; reflexivity|].
  split.
  - intros links s.
    assert (get_block_metadata
              (pretiffy_data Str.lower (art_markdown overview_page))
            = Raise AttributeError) as E by (vm_compute; reflexivity).
    assert (validate_page Str.lower init overview_page = true) as V
      by (vm_compute; reflexivity).
    assert (page (site 200 links) (base_url init ++ u "overview.html")
            = mkPage 200 (Some overview_page)) as P
      by (vm_compute; reflexivity).
    unfold catch_and_convert, url_of, bind, act, raise.
    rewrite P. cbn [pg_status pg_article Z.eqb Pos.eqb]. rewrite V.
    unfold save_md, bind, lift. now rewrite E.
  - repeat split; vm_compute; reflexivity.
Qed.

(** ** C3: the index page *)

Lemma main_without_links (lower : str -> str) (w : World) (s : Sys) :
  (ix_status (index_page w) =? 200)%Z = false ->
  entry_point lower w s =
    (Ok tt,
     {| files := files s;
        console := AllDocsCount 0 :: CorrectlyDownloaded 0 ::
                   LinksParsingStarted :: console s;
        requests := index_url :: requests s |}).
Proof.
  intros H.
  unfold entry_point, main, parse_links, bind, act, ret.
  cbn [fst snd]. rewrite H. reflexivity.
Qed.

(** C3 (as amended).  If the fetch of the index page does not answer 200,
    no link is collected: the run started by the entry point asks for no
    page, launches no task and writes no file.  It does not fail: it prints
    its three lines, with 0 documents downloaded out of 0, and ends
    normally. *)
Theorem index_failure_leaves_nothing_to_do (lower : str -> str) (w : World)
    (s : Sys) :
  ix_status (index_page w) <> 200%Z ->
  entry_point lower w s =
    (Ok tt,
     {| files := files s;
        console := AllDocsCount 0 :: CorrectlyDownloaded 0 ::
                   LinksParsingStarted :: console s;
        requests := index_url :: requests s |}).
Proof.
  intros H. apply main_without_links. now apply Z.eqb_neq.
Qed.

Lemma index_failure_leaves_nothing_to_do_witness :
  entry_point Str.lower (site 404 [u "sum.html"]) empty_sys =
    (Ok tt,
     {| files := [];
        console := [AllDocsCount 0; CorrectlyDownloaded 0; LinksParsingStarted];
        requests := [index_url] |}).
Proof.
  apply (@index_failure_leaves_nothing_to_do Str.lower
           (site 404 [u "sum.html"]) empty_sys).
  vm_compute. discriminate.
Defined.

(** C3 (as stated) fails: with an index page that answers 404 the run ends
    normally, it raises nothing. *)
Lemma index_failure_is_not_fatal :
  ix_status (index_page (site 404 [u "sum.html"])) <> 200%Z /\
  fst (entry_point Str.lower (site 404 [u "sum.html"]) empty_sys) = Ok tt /\
  ~ exists e s',
      entry_point Str.lower (site 404 [u "sum.html"]) empty_sys = (Raise e, s').
Proof.
  split; [vm_compute; discriminate|].
  rewrite (@main_without_links Str.lower (site 404 [u "sum.html"]) empty_sys)
    by reflexivity.
  split; [reflexivity|].
  intros (e & s' & H). discriminate H.
Qed.

(** ** C7: the blocked libraries *)

(** C7.  The object the entry point creates has an empty list of blocked
    libraries, and nothing on the way from the entry point calls
    [set_blocked_libs]: a page of the interfaces library passes the
    validator and is written to the disk.  With the list [set_blocked_libs]
    installs the same page is refused. *)
Theorem blocked_libs_stay_empty :
  blocked_libs init = [] /\
  blocked_libs (set_blocked_libs init) = [INTERFACES; RITM] /\
  occurs INTERFACES (Str.lower (art_text can_pack_page)) /\
  validate_page Str.lower init can_pack_page = true /\
  validate_page Str.lower (set_blocked_libs init) can_pack_page = false /\
  (let r := entry_point Str.lower (site 200 [u "can-pack.html"]) empty_sys in
   fst r = Ok tt /\
   map fst (files (snd r)) =
     [u "documentation/.Interfaces.CAN.CAN Pack.md";
      u "documentation/.Interfaces.CAN.CAN Pack.json"] /\
   console (snd r) =
     [AllDocsCount 1; CorrectlyDownloaded 1; LinksParsingStarted]) /\
  (let r := main Str.lower (set_blocked_libs init)
              (site 200 [u "can-pack.html"]) empty_sys in
   files (snd r) = [] /\
   console (snd r) =
     [AllDocsCount 1; CorrectlyDownloaded 0; LinksParsingStarted]).
Proof.
  split; [reflexivity|]. split; [reflexivity|].
  split; [apply contains_occurs; vm_compute; reflexivity|].
  repeat split; vm_compute; reflexivity.
Qed.

(** ** C6: the marker in English *)

(** C6 (as stated) fails: on the text with the marker spelled
    "Path in library:<br>" no library path is found, taking the metadata
    raises [AttributeError], and [__save_md] writes no file. *)
Lemma sum_block_english_marker_raises :
  get_block_metadata sum_block_markdown_english = Raise AttributeError /\
  forall (w : World) (text : str) (s : Sys),
    save_md Str.lower init w (mkArticle text sum_block_markdown_english) s
    = (Raise AttributeError, s).
Proof.
  split; [vm_compute; reflexivity|].
  intros w text s.
  assert (get_block_metadata
            (pretiffy_data Str.lower sum_block_markdown_english)
          = Raise AttributeError) as E by (vm_compute; reflexivity).
  unfold save_md, bind, lift. cbn [art_markdown]. now rewrite E.
Qed.

(** * Further properties of the code *)

(** ** The pattern of the library path *)

Lemma match_here_many_run (k : Re.cls) (r : Re.regex) (t : str) m :
  Re.match_here (Re.Many k :: r) t = Some m ->
  exists run t',
    t = run ++ t' /\ forallb (Re.cls_ok k) run = true /\
    Re.match_here r t' = Some m.
Proof.
  induction t as [|c t IH]; rewrite match_here_many.
  - intros H. exists [], []. auto.
  - destruct (Re.cls_ok k c) eqn:E.
    + destruct (Re.match_here (Re.Many k :: r) t) as [m'|].
      * intros H; injection H as ->.
        destruct (IH eq_refl) as (run & t' & -> & F & Ht').
        exists (c :: run), t'. cbn [forallb app]. rewrite E, F. auto.
      * intros H. exists [], (c :: t). auto.
    + intros H. exists [], (c :: t). auto.
Qed.

(** A greedy repetition at the end of a pattern takes the whole run. *)
Lemma match_many_mark (k : Re.cls) (t : str) :
  exists run rest,
    t = run ++ rest /\ forallb (Re.cls_ok k) run = true /\
    (rest = [] \/ exists c rest', rest = c :: rest' /\ Re.cls_ok k c = false) /\
    Re.match_here [Re.Many k; Re.Mark] t = Some ([rest], rest).
Proof.
  induction t as [|c t IH].
  - exists [], []. repeat split; auto.
  - destruct (Re.cls_ok k c) eqn:E.
    + destruct IH as (run & rest & -> & F & R & M).
      exists (c :: run), rest. cbn [forallb app]. rewrite E, F.
      repeat split; [exact R|].
      rewrite match_here_many, E, M. reflexivity.
    + exists [], (c :: t). repeat split; [right; eauto|].
      rewrite match_here_many, E. reflexivity.
Qed.

Lemma not_bar_run (run : str) :
  forallb (Re.cls_ok (Re.NotLit BAR)) run = true -> ~ In BAR run.
Proof.
  intros F I. rewrite forallb_forall in F. specialize (F _ I).
  cbn in F. discriminate F.
Qed.

Lemma path_pattern_match (t : str) m :
  Re.match_here path_pattern t = Some m ->
  exists ws c run rest,
    t = PATH_MARKER ++ ws ++ (SLASH :: c :: run) ++ rest /\
    forallb isspace ws = true /\
    c <> BAR /\ ~ In BAR run /\
    (rest = [] \/ exists rest', rest = BAR :: rest') /\
    Re.group1 m = Some (SLASH :: c :: run).
Proof.
  unfold path_pattern. rewrite match_here_lits.
  destruct (startswith PATH_MARKER t) eqn:S; [|discriminate].
  destruct (startswith_inv _ _ S) as [x ->]. clear S.
  rewrite skipn_app, Nat.sub_diag, skipn_all. cbn [app skipn].
  intros H.
  apply match_here_many_run in H as (ws & t1 & -> & Fws & H).
  apply match_here_mark in H as (ms & H & Hm).
  destruct t1 as [|c1 t1]; [discriminate|].
  rewrite match_here_one in H. cbn [Re.cls_ok] in H.
  destruct (c1 =? SLASH)%N eqn:E1; [|discriminate].
  apply N.eqb_eq in E1; subst c1.
  cbn [Re.plus app] in H.
  destruct t1 as [|c2 t2]; [discriminate|].
  rewrite match_here_one in H. cbn [Re.cls_ok] in H.
  destruct (c2 =? BAR)%N eqn:E2; [discriminate|]. cbn [negb] in H.
  destruct (match_many_mark (Re.NotLit BAR) t2) as (run & rest & -> & F & R & M).
  rewrite M in H. injection H as <- _.
  exists ws, c2, run, rest.
  split; [reflexivity|]. split; [exact Fws|].
  split; [now apply N.eqb_neq|]. split; [now apply not_bar_run|].
  split.
  - destruct R as [->|(c & rest' & -> & Ec)]; [now left|right].
    exists rest'. cbn in Ec. apply negb_false_iff, N.eqb_eq in Ec. now subst c.
  - unfold Re.group1. rewrite Hm.
    cbn [length]. rewrite length_app.
    replace (S (S (length run + length rest)) - length rest)
      with (S (S (length run))) by lia.
    cbn [firstn]. rewrite firstn_app, Nat.sub_diag, firstn_all.
    cbn [firstn]. now rewrite app_nil_r.
Qed.

(** X1.  A library path that is found lies in the text right after the
    marker and the white space that follows it; it is a '/' and at least one
    more character, holds no '|', and runs up to the next '|' or to the end
    of the text. *)
Theorem get_block_path_spec (t p : str) :
  get_block_path t = Ok p ->
  exists pre ws c run rest,
    t = pre ++ PATH_MARKER ++ ws ++ p ++ rest /\
    forallb isspace ws = true /\
    p = SLASH :: c :: run /\
    ~ In BAR p /\
    (rest = [] \/ exists rest', rest = BAR :: rest').
Proof.
  unfold get_block_path.
  destruct (Re.search path_pattern t) as [m|] eqn:S; [|discriminate].
  apply search_inv in S as (pre & t' & -> & H).
  apply path_pattern_match in H as (ws & c & run & rest & -> & F & Nc & Nr & R & G).
  rewrite G. intros E; injection E as <-.
  exists pre, ws, c, run, rest.
  split; [reflexivity|]. split; [exact F|]. split; [reflexivity|].
  split; [|exact R].
  intros [E|[E|I]]; [discriminate E|now apply Nc|now apply Nr].
Qed.

Lemma get_block_path_spec_witness :
  exists pre ws c run rest,
    sum_block_markdown
      = pre ++ PATH_MARKER ++ ws ++ u "/Operations/Math " ++ rest /\
    forallb isspace ws = true /\
    u "/Operations/Math " = SLASH :: c :: run /\
    ~ In BAR (u "/Operations/Math ") /\
    (rest = [] \/ exists rest', rest = BAR :: rest').
Proof.
  apply (@get_block_path_spec sum_block_markdown (u "/Operations/Math ")).
  vm_compute. reflexivity.
Defined.

Lemma get_block_path_error (t : str) (e : exn) :
  get_block_path t = Raise e -> e = AttributeError.
Proof.
  unfold get_block_path.
  destruct (Re.search path_pattern t) as [m|] eqn:S.
  - apply search_inv in S as (pre & t' & _ & H).
    apply path_pattern_group in H as (c & run & ->). discriminate.
  - intros H; now injection H as <-.
Qed.

(** X2.  A text in which the marker "Путь в библиотеке:<br>" does not occur
    has no metadata: the extraction raises [AttributeError]. *)
Theorem get_block_metadata_without_marker (t : str) :
  ~ occurs PATH_MARKER t -> get_block_metadata t = Raise AttributeError.
Proof.
  intros N. unfold get_block_metadata.
  destruct (get_block_path t) as [p|e] eqn:P.
  - exfalso. apply N. unfold get_block_path in P.
    destruct (Re.search path_pattern t) as [m|] eqn:S; [|discriminate].
    apply search_inv in S as (pre & t' & -> & H).
    unfold path_pattern in H. rewrite match_here_lits in H.
    destruct (startswith PATH_MARKER t') eqn:W; [|discriminate].
    destruct (startswith_inv _ _ W) as [x ->]. now exists pre, x.
  - now rewrite (get_block_path_error _ P).
Qed.

Lemma get_block_metadata_without_marker_witness :
  get_block_metadata (art_markdown overview_page) = Raise AttributeError.
Proof.
  apply get_block_metadata_without_marker.
  apply contains_false_occurs. vm_compute. reflexivity.
Defined.

(** ** What [__save_md] does to the files *)

Lemma get_block_metadata_error (t : str) (e : exn) :
  get_block_metadata t = Raise e -> e = AttributeError.
Proof.
  unfold get_block_metadata.
  destruct (get_block_path t) as [p|e'] eqn:P; [discriminate|].
  intros H; injection H as <-. exact (get_block_path_error _ P).
Qed.

Lemma save_md_cases (lower : str -> str) (self : Downloader) (w : World)
    (body : Article) (s : Sys) :
  save_md lower self w body s = (Raise AttributeError, s) \/
  exists metadata,
    get_block_metadata (pretiffy_data lower (art_markdown body)) = Ok metadata /\
    (save_md lower self w body s = (Raise OSError, s) \/
     save_md lower self w body s =
       (Ok false, write_file (json_file self metadata) (JsonDump metadata) s) \/
     save_md lower self w body s =
       (Ok true,
        write_file (md_file self metadata)
          (Text (pretiffy_data lower (art_markdown body)))
          (write_file (json_file self metadata) (JsonDump metadata) s))).
Proof.
  destruct (get_block_metadata (pretiffy_data lower (art_markdown body)))
    as [metadata|e] eqn:G.
  - right. exists metadata. split; [reflexivity|].
    rewrite (save_md_steps _ self w _ s G).
    destruct (writable w (json_file self metadata)); [|now left].
    cbn zeta. destruct (writable w (md_file self metadata)); auto.
  - left. rewrite (get_block_metadata_error _ G) in G.
    unfold save_md, bind, lift. now rewrite G.
Qed.

Lemma rstrip_keeps_head (c : N) (x : str) :
  isspace c = false -> exists rest, rstrip (c :: x) = c :: rest.
Proof.
  intros S.
  assert (exists ws, forallb isspace ws = true /\ c :: x = rstrip (c :: x) ++ ws)
    as (ws & F & E).
  { unfold rstrip.
    assert (forall t, exists ws, forallb isspace ws = true /\ t = ws ++ lstrip t)
      as A.
    { induction t as [|d t (ws & F & E)]; [now exists []|].
      cbn [lstrip]. destruct (isspace d) eqn:D.
      - exists (d :: ws). cbn [forallb app]. rewrite D, F.
        split; [reflexivity|]. now rewrite <- E.
      - now exists []. }
    destruct (A (rev (c :: x))) as (ws & F & E).
    exists (rev ws). split.
    - rewrite forallb_forall in *. intros y I. apply F. now apply in_rev.
    - rewrite <- rev_app_distr, <- E. now rewrite rev_involutive. }
  destruct (rstrip (c :: x)) as [|d rest].
  - cbn [app] in E. rewrite <- E in F. cbn [forallb] in F.
    rewrite S in F. discriminate F.
  - cbn [app] in E. injection E as -> _. now exists rest.
Qed.

(** X3.  Metadata that [__get_block_metadata] extracted always pass the test
    [if block_path] of [__save_block_metadata]: its [ValueError] is not
    raised for them and the function goes on to open the metadata file.  The
    stem of the names of the two files begins with '.'. *)
Theorem extracted_metadata_stem (t : str) (metadata : Metadata) :
  get_block_metadata t = Ok metadata ->
  (exists rest, rstrip (dotted metadata) = 46%N :: rest) /\
  forall (self : Downloader) (w : World) (s : Sys),
    save_block_metadata self w metadata s
    = open_write w (json_file self metadata) (JsonDump metadata) s.
Proof.
  intros H. destruct (dotted_nonempty _ H) as (d & rest & D).
  assert (d = 46%N) as ->.
  { revert D. unfold get_block_metadata in H.
    destruct (get_block_path t) as [p|e] eqn:P; [|discriminate].
    injection H as <-.
    apply get_block_path_shape in P as (c & run & ->).
    unfold dotted. cbn [block_path].
    change (u "/") with [SLASH]. change (u ".") with [46%N].
    rewrite replace_char. cbn [flat_map]. rewrite N.eqb_refl.
    cbn [app]. intros E. now injection E as <- _. }
  split.
  - rewrite D. now apply rstrip_keeps_head.
  - intros self w s. unfold save_block_metadata. now rewrite D.
Qed.

Lemma extracted_metadata_stem_witness :
  (exists rest, rstrip (dotted sum_block_metadata) = 46%N :: rest) /\
  forall (self : Downloader) (w : World) (s : Sys),
    save_block_metadata self w sum_block_metadata s
    = open_write w (json_file self sum_block_metadata)
        (JsonDump sum_block_metadata) s.
Proof.
  apply (@extracted_metadata_stem sum_block_markdown sum_block_metadata).
  vm_compute. reflexivity.
Defined.

(** X4.  When [__save_md] returns, the metadata were extracted and their
    file is the entry written first; the Markdown file is written on top of
    it exactly when the answer is [True].  Files written before stay, and
    nothing is printed or requested. *)
Theorem save_md_files (lower : str -> str) (self : Downloader) (w : World)
    (body : Article) (s : Sys) (b : bool) :
  fst (save_md lower self w body s) = Ok b ->
  exists metadata,
    get_block_metadata (pretiffy_data lower (art_markdown body)) = Ok metadata /\
    files (snd (save_md lower self w body s)) =
      (if b
       then [(md_file self metadata,
              Text (pretiffy_data lower (art_markdown body)))]
       else []) ++
      (json_file self metadata, JsonDump metadata) :: files s /\
    console (snd (save_md lower self w body s)) = console s /\
    requests (snd (save_md lower self w body s)) = requests s.
Proof.
  destruct (save_md_cases lower self w body s)
    as [E|(m & G & [E|[E|E]])]; rewrite E; cbn [fst snd]; intros H;
    try discriminate H; injection H as <-; exists m; auto.
Qed.

Lemma save_md_files_witness :
  exists metadata,
    get_block_metadata (pretiffy_data Str.lower (art_markdown sum_block_page))
      = Ok metadata /\
    files (snd (save_md Str.lower init (site 200 []) sum_block_page empty_sys)) =
      [(md_file init metadata,
        Text (pretiffy_data Str.lower (art_markdown sum_block_page)))] ++
      (json_file init metadata, JsonDump metadata) :: files empty_sys /\
    console (snd (save_md Str.lower init (site 200 []) sum_block_page empty_sys))
      = console empty_sys /\
    requests (snd (save_md Str.lower init (site 200 []) sum_block_page empty_sys))
      = requests empty_sys.
Proof.
  apply (@save_md_files Str.lower init (site 200 []) sum_block_page
           empty_sys true).
  vm_compute. reflexivity.
Defined.

(** ** One page *)

Lemma catch_and_convert_cases (lower : str -> str) (self : Downloader)
    (w : World) (link : str) (s : Sys) :
  let r := catch_and_convert lower self w link s in
  let s0 := request (page_url self link) s in
  r = (Ok false, s0) \/
  r = (Raise AttributeError, s0) \/
  r = (Raise OSError, s0) \/
  exists article metadata,
    pg_status (page w (page_url self link)) = 200%Z /\
    pg_article (page w (page_url self link)) = Some article /\
    validate_page lower self article = true /\
    get_block_metadata (pretiffy_data lower (art_markdown article))
      = Ok metadata /\
    (r = (Ok false,
          write_file (json_file self metadata) (JsonDump metadata) s0) \/
     r = (Ok true,
          write_file (md_file self metadata)
            (Text (pretiffy_data lower (art_markdown article)))
            (write_file (json_file self metadata) (JsonDump metadata) s0))).
Proof.
  cbn zeta. unfold catch_and_convert, page_url, bind, act, ret, raise.
  destruct (pg_status (page w (base_url self ++ link)) =? 200)%Z eqn:St;
    [|now left].
  apply Z.eqb_eq in St.
  destruct (pg_article (page w (base_url self ++ link))) as [article|] eqn:A;
    [|right; now left].
  destruct (validate_page lower self article) eqn:V; [|now left].
  destruct (save_md_cases lower self w article
              (request (base_url self ++ link) s))
    as [E|(m & G & [E|[E|E]])]; rewrite E.
  - right; now left.
  - right; right; now left.
  - right; right; right. exists article, m.
    split; [exact St|]. split; [reflexivity|]. split; [exact V|].
    split; [exact G|]. now left.
  - right; right; right. exists article, m.
    split; [exact St|]. split; [reflexivity|]. split; [exact V|].
    split; [exact G|]. now right.
Qed.

(** X5.  A page is counted as downloaded only if it answered 200, has an
    article the validator accepts and metadata that could be extracted, and
    both of its files were written: the metadata file and then the Markdown
    file. *)
Theorem catch_and_convert_true (lower : str -> str) (self : Downloader)
    (w : World) (link : str) (s : Sys) :
  fst (catch_and_convert lower self w link s) = Ok true ->
  exists article metadata,
    pg_status (page w (page_url self link)) = 200%Z /\
    pg_article (page w (page_url self link)) = Some article /\
    validate_page lower self article = true /\
    get_block_metadata (pretiffy_data lower (art_markdown article))
      = Ok metadata /\
    snd (catch_and_convert lower self w link s) =
      write_file (md_file self metadata)
        (Text (pretiffy_data lower (art_markdown article)))
        (write_file (json_file self metadata) (JsonDump metadata)
           (request (page_url self link) s)).
Proof.
  destruct (catch_and_convert_cases lower self w link s)
    as [E|[E|[E|(a & m & St & A & V & G & [E|E])]]];
    rewrite E; cbn [fst snd]; intros H; try discriminate H.
  exists a, m. repeat (split; [assumption|]). reflexivity.
Qed.

Lemma catch_and_convert_true_witness :
  exists article metadata,
    pg_status (page (site 200 []) (page_url init (u "sum.html"))) = 200%Z /\
    pg_article (page (site 200 []) (page_url init (u "sum.html")))
      = Some article /\
    validate_page Str.lower init article = true /\
    get_block_metadata (pretiffy_data Str.lower (art_markdown article))
      = Ok metadata /\
    snd (catch_and_convert Str.lower init (site 200 []) (u "sum.html") empty_sys) =
      write_file (md_file init metadata)
        (Text (pretiffy_data Str.lower (art_markdown article)))
        (write_file (json_file init metadata) (JsonDump metadata)
           (request (page_url init (u "sum.html")) empty_sys)).
Proof.
  apply (@catch_and_convert_true Str.lower init (site 200 []) (u "sum.html")
           empty_sys).
  vm_compute. reflexivity.
Defined.

(** X6.  A page whose case-folded text holds one of the object's markers of
    blocked libraries is never written: whatever its status, the outcome is
    [False], and the request is all that happened. *)
Theorem blocked_page_not_written (lower : str -> str) (self : Downloader)
    (w : World) (link : str) (s : Sys) (article : Article) (blocked : str) :
  pg_article (page w (page_url self link)) = Some article ->
  In blocked (blocked_libs self) ->
  occurs blocked (lower (art_text article)) ->
  catch_and_convert lower self w link s
    = (Ok false, request (page_url self link) s).
Proof.
  intros A I O.
  assert (validate_page lower self article = false) as V.
  { unfold validate_page.
    destruct (contains DOC_MARKER (lower (art_text article))); [|reflexivity].
    assert (existsb (fun blocked_type =>
              contains blocked_type (lower (art_text article)))
              (blocked_libs self) = true) as ->; [|reflexivity].
    apply existsb_exists. exists blocked. split; [exact I|].
    now apply contains_occurs. }
  unfold catch_and_convert, page_url in *. unfold bind, act, ret.
  rewrite A, V.
  now destruct (pg_status (page w (base_url self ++ link)) =? 200)%Z.
Qed.

Lemma blocked_page_not_written_witness :
  catch_and_convert Str.lower (set_blocked_libs init)
    (site 200 []) (u "can-pack.html") empty_sys
  = (Ok false,
     request (page_url (set_blocked_libs init) (u "can-pack.html")) empty_sys).
Proof.
  apply (@blocked_page_not_written Str.lower (set_blocked_libs init)
           (site 200 []) (u "can-pack.html") empty_sys can_pack_page
           INTERFACES).
  - vm_compute. reflexivity.
  - left. reflexivity.
  - apply contains_occurs. vm_compute. reflexivity.
Defined.

(** ** The whole run *)

Lemma count_true_le (results : list bool) :
  count_true results <= length results.
Proof.
  unfold count_true. apply filter_length_le.
Qed.

Lemma gather_pages (lower : str -> str) (self : Downloader) (w : World)
    (links : list str) (s : Sys) :
  let r := gather (map (catch_and_convert lower self w) links) s in
  console (snd r) = console s /\
  match fst r with
  | Ok results =>
      length results = length links /\
      requests (snd r) = rev (map (page_url self) links) ++ requests s
  | Raise e => e = AttributeError \/ e = OSError
  end.
Proof.
  cbn zeta. revert s. induction links as [|link links IH]; intros s.
  - cbn. auto.
  - cbn [map gather]. unfold bind.
    pose proof (catch_and_convert_cases lower self w link s) as C.
    cbn zeta in C.
    destruct (catch_and_convert lower self w link s) as [[b|e] s1] eqn:E.
    + assert (console s1 = console s /\
              requests s1 = page_url self link :: requests s) as [Cs Rs].
      { destruct C as [C|[C|[C|(a & m & _ & _ & _ & _ & [C|C])]]];
          try discriminate C; injection C as -> ->; cbn; auto. }
      specialize (IH s1).
      destruct (gather (map (catch_and_convert lower self w) links) s1)
        as [[rs|e] s2]; cbn [fst snd ret] in *.
      * destruct IH as (Cn & L & R). split; [congruence|].
        split; [cbn; now rewrite L|].
        rewrite R, Rs. cbn [map rev]. now rewrite <- app_assoc.
      * destruct IH as (Cn & X). split; [congruence|exact X].
    + cbn [fst snd].
      destruct C as [C|[C|[C|(a & m & _ & _ & _ & _ & [C|C])]]];
        try discriminate C; injection C as -> ->; cbn; auto.
Qed.

Lemma parse_links_effect (self : Downloader) (w : World) (s : Sys) :
  exists b self',
    parse_links self w s = (Ok (b, self'), request (base_url self ++ INDEX_NAME) s) /\
    base_url self' = base_url self /\
    blocked_libs self' = blocked_libs self /\
    doc_dir self' = doc_dir self /\
    raw_links self' = raw_links self ++ collected_links w.
Proof.
  unfold parse_links, collected_links, bind, act, ret.
  destruct (ix_status (index_page w) =? 200)%Z.
  - destruct (ix_articles (index_page w)) as [|article rest].
    + exists false, self. rewrite app_nil_r. auto.
    + eexists true, _. split; [reflexivity|]. auto.
  - exists false, self. rewrite app_nil_r. auto.
Qed.

Lemma main_cases (lower : str -> str) (self : Downloader) (w : World)
    (s : Sys) :
  let r := main lower self w s in
  let links := raw_links self ++ collected_links w in
  match fst r with
  | Ok _ =>
      exists k,
        k <= length links /\
        console (snd r) =
          AllDocsCount (length links) :: CorrectlyDownloaded k ::
          LinksParsingStarted :: console s /\
        requests (snd r) =
          rev (map (page_url self) links) ++
          (base_url self ++ INDEX_NAME) :: requests s
  | Raise e =>
      (e = AttributeError \/ e = OSError) /\
      console (snd r) = LinksParsingStarted :: console s
  end.
Proof.
  cbn zeta. unfold main, bind, act.
  destruct (parse_links_effect self w s) as (b & self' & -> & B & _ & _ & L).
  cbn [snd].
  pose proof (gather_pages lower self' w (raw_links self')
                (print LinksParsingStarted
                   (request (base_url self ++ INDEX_NAME) s))) as G.
  cbn zeta in G.
  destruct (gather (map (catch_and_convert lower self' w) (raw_links self')) _)
    as [[rs|e] s2]; cbn [fst snd] in *.
  - destruct G as (Cn & Ln & R).
    cbn [fst snd print console requests files].
    exists (count_true rs). rewrite <- L, <- Ln.
    split; [apply count_true_le|]. split; [now rewrite Cn|].
    rewrite R. cbn [print request requests].
    f_equal. f_equal. apply map_ext. intros a. unfold page_url. now rewrite B.
  - destruct G as (Cn & X). split; [exact X|exact Cn].
Qed.

(** X7.  When [main] ends normally it has printed its three lines: the
    total is the number of links of the object after [parse_links] (those it
    had and the anchors of the first article of the index page), the number
    of downloaded documents does not exceed it, and the requests made are
    the one for the index page followed by one per link, in the order of the
    links. *)
Theorem main_report (lower : str -> str) (self : Downloader) (w : World)
    (s : Sys) :
  fst (main lower self w s) = Ok tt ->
  exists k,
    k <= length (raw_links self ++ collected_links w) /\
    console (snd (main lower self w s)) =
      AllDocsCount (length (raw_links self ++ collected_links w)) ::
      CorrectlyDownloaded k :: LinksParsingStarted :: console s /\
    requests (snd (main lower self w s)) =
      rev (map (page_url self) (raw_links self ++ collected_links w)) ++
      (base_url self ++ INDEX_NAME) :: requests s.
Proof.
  intros H. pose proof (main_cases lower self w s) as C. cbn zeta in C.
  rewrite H in C. exact C.
Qed.

Lemma main_report_witness :
  exists k,
    k <= length (raw_links init ++
                 collected_links (site 200 [u "sum.html"; u "missing.html"])) /\
    console (snd (main Str.lower init
                    (site 200 [u "sum.html"; u "missing.html"]) empty_sys)) =
      AllDocsCount
        (length (raw_links init ++
                 collected_links (site 200 [u "sum.html"; u "missing.html"]))) ::
      CorrectlyDownloaded k :: LinksParsingStarted :: console empty_sys /\
    requests (snd (main Str.lower init
                     (site 200 [u "sum.html"; u "missing.html"]) empty_sys)) =
      rev (map (page_url init)
             (raw_links init ++
              collected_links (site 200 [u "sum.html"; u "missing.html"]))) ++
      (base_url init ++ INDEX_NAME) :: requests empty_sys.
Proof.
  apply (@main_report Str.lower init
           (site 200 [u "sum.html"; u "missing.html"]) empty_sys).
  vm_compute. reflexivity.
Defined.

(** ** The names of the files *)

Lemma lstrip_head (t : str) :
  match lstrip t with
  | [] => True
  | c :: _ => isspace c = false
  end.
Proof.
  induction t as [|c t IH]; cbn [lstrip]; [exact I|].
  destruct (isspace c) eqn:E; [exact IH|exact E].
Qed.

Lemma lstrip_spaces (a b : str) :
  forallb isspace a = true -> lstrip (a ++ b) = lstrip b.
Proof.
  induction a as [|c a IH]; cbn [forallb app lstrip]; [reflexivity|].
  intros H. apply andb_true_iff in H as [-> H]. now apply IH.
Qed.

Lemma lstrip_split (t : str) :
  exists ws, forallb isspace ws = true /\ t = ws ++ lstrip t.
Proof.
  induction t as [|c t (ws & F & E)]; [now exists []|].
  cbn [lstrip]. destruct (isspace c) eqn:S.
  - exists (c :: ws). cbn [forallb app]. rewrite S, F. split; [reflexivity|].
    now rewrite <- E.
  - now exists [].
Qed.

Lemma forallb_rev (f : N -> bool) (l : str) :
  forallb f l = true -> forallb f (rev l) = true.
Proof.
  rewrite !forallb_forall. intros H x I. apply H. now apply in_rev.
Qed.

Lemma rstrip_spaces (a ws : str) :
  forallb isspace ws = true -> rstrip (a ++ ws) = rstrip a.
Proof.
  intros F. unfold rstrip. rewrite rev_app_distr.
  now rewrite lstrip_spaces by now apply forallb_rev.
Qed.

Lemma rstrip_split (t : str) :
  exists ws, forallb isspace ws = true /\ t = rstrip t ++ ws.
Proof.
  destruct (lstrip_split (rev t)) as (ws & F & E).
  exists (rev ws). split; [now apply forallb_rev|].
  unfold rstrip. rewrite <- rev_app_distr, <- E. now rewrite rev_involutive.
Qed.

Lemma rstrip_last (t : str) :
  match rev (rstrip t) with
  | [] => True
  | c :: _ => isspace c = false
  end.
Proof.
  unfold rstrip. rewrite rev_involutive. apply lstrip_head.
Qed.

Lemma In_rstrip (c : N) (t : str) : In c (rstrip t) -> In c t.
Proof.
  unfold rstrip. intros H. apply in_rev. apply In_lstrip. now apply in_rev in H.
Qed.

Lemma dotted_chars (metadata : Metadata) :
  dotted metadata =
  flat_map (fun c => if (c =? SLASH)%N then [46%N] else [c])
    (block_path metadata).
Proof.
  unfold dotted. change (u "/") with [SLASH]. change (u ".") with [46%N].
  apply replace_char.
Qed.

(** X9.  The two files of a page are named by the documentation directory,
    one stem and the extension; the stem holds no '/', so both files lie in
    the directory itself, and it does not end with white space. *)
Theorem file_names_flat (self : Downloader) (metadata : Metadata) :
  exists stem,
    json_file self metadata = doc_dir self ++ stem ++ u ".json" /\
    md_file self metadata = doc_dir self ++ stem ++ u ".md" /\
    ~ In SLASH stem /\
    match rev stem with
    | [] => True
    | c :: _ => isspace c = false
    end.
Proof.
  exists (rstrip (dotted metadata)).
  split; [reflexivity|]. split; [reflexivity|].
  split; [|apply rstrip_last].
  intros H. apply In_rstrip in H. rewrite dotted_chars in H.
  apply in_flat_map in H as (x & _ & H).
  destruct (x =? SLASH)%N eqn:E.
  - destruct H as [H|[]]. discriminate H.
  - destruct H as [H|[]]. subst x. now rewrite N.eqb_refl in E.
Qed.

Lemma space_is_not_slash (ws : str) :
  forallb isspace ws = true ->
  flat_map (fun c => if (c =? SLASH)%N then [46%N] else [c]) ws = ws.
Proof.
  induction ws as [|c ws IH]; cbn [forallb flat_map]; [reflexivity|].
  intros H. apply andb_true_iff in H as [S H]. rewrite (IH H).
  destruct (c =? SLASH)%N eqn:E; [|reflexivity].
  apply N.eqb_eq in E. subst c. vm_compute in S. discriminate S.
Qed.

(** X10.  White space at the end of the library path does not show in the
    names of the files: a path and the same path followed by white space
    are written to the same two files. *)
Theorem file_names_ignore_trailing_space (self : Downloader)
    (name1 name2 path ws : str) :
  forallb isspace ws = true ->
  json_file self (mkMetadata name1 (path ++ ws))
    = json_file self (mkMetadata name2 path) /\
  md_file self (mkMetadata name1 (path ++ ws))
    = md_file self (mkMetadata name2 path).
Proof.
  intros F.
  assert (rstrip (dotted (mkMetadata name1 (path ++ ws)))
          = rstrip (dotted (mkMetadata name2 path))) as E.
  { rewrite !dotted_chars. cbn [block_path].
    rewrite flat_map_app, (space_is_not_slash _ F).
    now apply rstrip_spaces. }
  unfold json_file, md_file. now rewrite E.
Qed.

Lemma file_names_ignore_trailing_space_witness :
  json_file init (mkMetadata (u "Sum") (u "/Operations/Math" ++ u "  "))
    = json_file init (mkMetadata (u "Sum Block") (u "/Operations/Math")) /\
  md_file init (mkMetadata (u "Sum") (u "/Operations/Math" ++ u "  "))
    = md_file init (mkMetadata (u "Sum Block") (u "/Operations/Math")).
Proof.
  apply file_names_ignore_trailing_space.
  vm_compute. reflexivity.
Defined.

(** ** The block name, again *)

Lemma get_block_name_chars (t : str) :
  get_block_name t = strip (flat_map name_char (before_break t)).
Proof.
  unfold get_block_name. rewrite first_line_before_break.
  change (u "/") with [SLASH]. change (u "-") with [DASH].
  change (u "#") with [HASH]. change (u "") with (@nil N).
  now rewrite replace_hash_slash.
Qed.

Lemma before_break_no_newline (t : str) : ~ In 10%N (before_break t).
Proof.
  induction t as [|c t IH]; cbn [before_break]; [intros []|].
  destruct (c =? 10)%N eqn:E; [intros []|].
  intros [->|H]; [now rewrite N.eqb_refl in E|now apply IH].
Qed.

(** X11.  The block name holds no line break and neither begins nor ends
    with white space. *)
Theorem get_block_name_trimmed (t : str) :
  ~ In 10%N (get_block_name t) /\
  match get_block_name t with
  | [] => True
  | c :: _ => isspace c = false
  end /\
  match rev (get_block_name t) with
  | [] => True
  | c :: _ => isspace c = false
  end.
Proof.
  rewrite get_block_name_chars.
  set (x := flat_map name_char (before_break t)).
  split; [|split].
  - intros H. apply In_strip in H. unfold x in H.
    apply in_flat_map in H as (c & I & H).
    unfold name_char in H.
    destruct (c =? HASH)%N; [destruct H|].
    destruct (c =? SLASH)%N.
    + destruct H as [H|[]]. discriminate H.
    + destruct H as [->|[]]. now apply before_break_no_newline in I.
  - unfold strip.
    destruct (rstrip_split (lstrip x)) as (ws & _ & E).
    pose proof (lstrip_head x) as H.
    destruct (rstrip (lstrip x)) as [|c r]; [exact I|].
    rewrite E in H. exact H.
  - unfold strip. apply rstrip_last.
Qed.

(** ** The sanitizer shortens *)

Lemma slice_to_prefix (t : str) (i : Z) : exists rest, t = slice_to t i ++ rest.
Proof.
  unfold slice_to. destruct (i <? 0)%Z; eexists; symmetry; apply firstn_skipn.
Qed.

Lemma scan_words_prefix (lower : str -> str) (ws : list str) (c : str) :
  exists rest, c = scan_words lower ws c ++ rest.
Proof.
  induction ws as [|w ws IH]; cbn [scan_words].
  - exists []. now rewrite app_nil_r.
  - destruct (contains w (lower c)); [|exact IH].
    destruct (negb (rfind w c =? -1)%Z); [apply slice_to_prefix|exact IH].
Qed.

Lemma sub_go_length (r : Re.regex) (k : nat) (t : str) :
  length (Re.sub_go r k t) <= length t.
Proof.
  revert k; induction t as [|c t IH]; intros k; cbn [Re.sub_go length]; [lia|].
  destruct k as [|k]; [|specialize (IH k); lia].
  destruct (Re.match_here r (c :: t)) as [[ms rest]|].
  - destruct (S (length t) - length rest) as [|j].
    + cbn [length]. specialize (IH 0). lia.
    + specialize (IH j). lia.
  - cbn [length]. specialize (IH 0). lia.
Qed.

(** X12.  The sanitizer only takes away: its result is a beginning of the
    text left by the removal of the image blocks, and it is never longer
    than the input. *)
Theorem pretiffy_data_prefix (lower : str -> str) (markdown_text : str) :
  (exists rest,
     Re.sub_empty removing_pattern markdown_text
     = pretiffy_data lower markdown_text ++ rest) /\
  length (pretiffy_data lower markdown_text) <= length markdown_text.
Proof.
  unfold pretiffy_data.
  destruct (scan_words_prefix lower TARGET_WORDS
              (Re.sub_empty removing_pattern markdown_text)) as [rest E].
  split; [now exists rest|].
  pose proof (sub_go_length removing_pattern 0 markdown_text) as L.
  fold (Re.sub_empty removing_pattern markdown_text) in L.
  rewrite E in L at 1. rewrite length_app in L. lia.
Qed.

Lemma scan_words_shortens (lower : str -> str) (ws : list str) (c : str) :
  (forall w, In w ws -> w <> []) ->
  (exists w, In w ws /\ usable lower w c) ->
  length (scan_words lower ws c) < length c.
Proof.
  induction ws as [|w ws IH]; intros Hne (v & Hv & U); [destruct Hv|].
  cbn [scan_words].
  assert (length (scan_words lower ws c) < length c \/ usable lower w c) as D.
  { destruct Hv as [->|Hv]; [now right|left].
    apply IH; [intros; apply Hne; now right|now exists v]. }
  destruct (contains w (lower c)) eqn:C.
  - destruct (rfind w c =? -1)%Z eqn:R; cbn [negb].
    + apply Z.eqb_eq in R. destruct D as [D|[_ O]]; [exact D|].
      now apply rfind_absent in R.
    + apply Z.eqb_neq in R.
      destruct (@scan_words_cut w c R) as [[rest E] _].
      assert (w <> []) as Hw by (apply Hne; now left).
      apply (f_equal (@length N)) in E. rewrite !length_app in E.
      destruct w; [contradiction|cbn [length] in E; lia].
  - destruct D as [D|[O _]]; [exact D|].
    apply contains_occurs in O. congruence.
Qed.

(** X13.  Whenever one of the marker phrases is found in the case-folded
    text and, spelled as in the list, in the text itself, the sanitizer cuts:
    its result is strictly shorter than the text left by the removal of the
    image blocks. *)
Theorem pretiffy_data_cuts (lower : str -> str) (markdown_text w : str) :
  In w TARGET_WORDS ->
  usable lower w (Re.sub_empty removing_pattern markdown_text) ->
  length (pretiffy_data lower markdown_text)
    < length (Re.sub_empty removing_pattern markdown_text).
Proof.
  intros I U. unfold pretiffy_data. apply scan_words_shortens.
  - intros v Hv. unfold TARGET_WORDS in Hv.
    repeat (destruct Hv as [<-|Hv]; [discriminate|]). destruct Hv.
  - now exists w.
Qed.

Lemma pretiffy_data_cuts_witness :
  length (pretiffy_data Str.lower examples_then_see_also)
    < length (Re.sub_empty removing_pattern examples_then_see_also).
Proof.
  apply (@pretiffy_data_cuts Str.lower examples_then_see_also
           (u "смотрите также")).
  - vm_compute. tauto.
  - split; apply contains_occurs; vm_compute; reflexivity.
Defined.
